(** * mini_os threadlib: a cooperative threading runtime with pluggable
    schedulers (round-robin, static priority, MLFQ with aging).

    Shallow embedding of [src/threadlib.cpp] (POSIX branch of the platform
    glue) and verification of its scheduling properties.

    Modelling conventions.
    - C++ [int] / [int64_t] / [intptr_t] values are [Z].  Where an argument of
      the API or repeated calls can drive an [int] out of its range (the
      budget decrement of [thread_work], the size [level+1] computed by
      [mlfq_set_quantum_by_level]) the model checks the range and faults on
      signed overflow (undefined in C++).
    - [std::vector] and [std::deque] are lists.  [v[i]] outside the vector and
      [front()] of an empty deque are undefined in C++: the model returns a
      [Fault] there, so a result [Ok _] always denotes a defined execution.
    - The process-wide singletons ([g_sched], [g_threads], [g_current],
      [g_resources], [g_tls], [g_log]) are the fields of one [Runtime] record
      that every operation threads through.
    - The clock and the environment are inputs: [now_ms ()] is a parameter
      [now], [getenv "SCHED"] a parameter [env : option string].
    - The stack switch itself is abstract.  An operation that ends in
      [platform_yield_to_scheduler] returns the state in which the scheduler
      side continues.  The task's entry closure is not part of the state; of
      its machine context the state records whether [makecontext] has built
      it ([cx_made]), since [swapcontext] to a context that was never built
      is undefined: [switch_to_thread] faults there.
    - Memory is taken to be available: growing a vector and creating a task
      succeed.
    - The log is the list of records appended so far (the output file is taken
      to be open); the timestamp column is left out. *)

From stdpp Require Import gmap strings list fin_maps pretty.
From Stdlib Require Import ZArith Lia.

Open Scope Z_scope.

(** ** Defined and undefined executions *)

Inductive fault :=
  | OutOfRange (i : Z)      (* v[i] outside the vector *)
  | EmptyFront              (* front() / pop_front() of an empty deque *)
  | SignedOverflow          (* int arithmetic leaving [INT_MIN, INT_MAX] *)
  | BadClamp                (* std::clamp with hi < lo *)
  | BadAlloc                (* vector::assign with a negative count *)
  | NoContext (t : Z).      (* swapcontext to the zero-initialised context of t *)

Inductive res (A : Type) :=
  | Ok (a : A)
  | Fault (f : fault).
Arguments Ok {A} a.
Arguments Fault {A} f.

#[global] Instance res_ret : MRet res := fun A a => Ok a.
#[global] Instance res_bind : MBind res := fun A B f m =>
  match m with
  | Ok a => f a
  | Fault e => Fault e
  end.

Definition INT_MIN : Z := - 2147483648.
Definition INT_MAX : Z := 2147483647.

Definition in_int (z : Z) : Prop := INT_MIN <= z <= INT_MAX.

Definition int_sub (a b : Z) : res Z :=
  if (INT_MIN <=? a - b) && (a - b <=? INT_MAX) then Ok (a - b)
  else Fault SignedOverflow.

Definition int_add (a b : Z) : res Z :=
  if (INT_MIN <=? a + b) && (a + b <=? INT_MAX) then Ok (a + b)
  else Fault SignedOverflow.

(** [v[i]] for an [int] index. *)
Definition vec_at {A} (v : list A) (i : Z) : res A :=
  if i <? 0 then Fault (OutOfRange i)
  else match v !! Z.to_nat i with
       | Some a => Ok a
       | None => Fault (OutOfRange i)
       end.

(** [v[i] = a]. *)
Definition vec_set {A} (v : list A) (i : Z) (a : A) : res (list A) :=
  _ ← vec_at v i; Ok (<[Z.to_nat i := a]> v).

(** [std::clamp v lo hi]. *)
Definition clamp (v lo hi : Z) : res Z :=
  if hi <? lo then Fault BadClamp
  else Ok (if v <? lo then lo else if hi <? v then hi else v).

(** ** Data model *)

Inductive ThreadState := NEW | READY | RUNNING | BLOCKED | SLEEPING | FINISHED.

#[global] Instance ThreadState_eq_dec : EqDecision ThreadState.
Proof. solve_decision. Defined.

Inductive SchedPolicy := RoundRobin | Priority | MLFQ.

#[global] Instance SchedPolicy_eq_dec : EqDecision SchedPolicy.
Proof. solve_decision. Defined.

(** [struct Thread], without the entry closure [func].  Of the member [cx]
    the record keeps [cx_made]: whether [cx.ctx] has been built by
    [getcontext] / [makecontext].  (The member is value-initialised,
    [ucontext_t ctx{}], so it starts as an all-zero context.  A save by
    [swapcontext] in [platform_yield_to_scheduler] is not recorded: the task
    that yields was resumed through its context, which was built then.) *)
Record Thread := mkThread {
  tid : Z;
  base_priority : Z;
  dyn_priority : Z;
  state : ThreadState;
  name : string;
  cx_made : bool;
  wake_time_ms : Z;
  quantum_budget : Z;
  mlfq_level : Z
}.

Definition set_state (st : ThreadState) (th : Thread) : Thread :=
  mkThread (tid th) (base_priority th) (dyn_priority th) st (name th)
           (cx_made th) (wake_time_ms th) (quantum_budget th) (mlfq_level th).

Definition set_wake_time_ms (w : Z) (th : Thread) : Thread :=
  mkThread (tid th) (base_priority th) (dyn_priority th) (state th) (name th)
           (cx_made th) w (quantum_budget th) (mlfq_level th).

Definition set_quantum_budget (q : Z) (th : Thread) : Thread :=
  mkThread (tid th) (base_priority th) (dyn_priority th) (state th) (name th)
           (cx_made th) (wake_time_ms th) q (mlfq_level th).

Definition set_cx_made (b : bool) (th : Thread) : Thread :=
  mkThread (tid th) (base_priority th) (dyn_priority th) (state th) (name th)
           b (wake_time_ms th) (quantum_budget th) (mlfq_level th).

Definition set_mlfq_level (l : Z) (th : Thread) : Thread :=
  mkThread (tid th) (base_priority th) (dyn_priority th) (state th) (name th)
           (cx_made th) (wake_time_ms th) (quantum_budget th) l.

(** One line of the trace: [event,tid,info]. *)
Record LogEntry := mkLog {
  event : string;
  log_tid : Z;
  info : string
}.

#[global] Instance LogEntry_eq_dec : EqDecision LogEntry.
Proof. solve_decision. Defined.

(** [struct Scheduler]. *)
Record Scheduler := mkSched {
  policy : SchedPolicy;
  rrq : list Z;
  mlfq : list (list Z);
  levels : Z;
  quantum_by_level : list Z;
  enable_aging : bool;
  aging_interval_ms : Z;
  last_age_ms : Z
}.

Definition sched_with_policy (p : SchedPolicy) (sc : Scheduler) : Scheduler :=
  mkSched p (rrq sc) (mlfq sc) (levels sc) (quantum_by_level sc)
          (enable_aging sc) (aging_interval_ms sc) (last_age_ms sc).

Definition sched_with_rrq (q : list Z) (sc : Scheduler) : Scheduler :=
  mkSched (policy sc) q (mlfq sc) (levels sc) (quantum_by_level sc)
          (enable_aging sc) (aging_interval_ms sc) (last_age_ms sc).

Definition sched_with_mlfq (m : list (list Z)) (sc : Scheduler) : Scheduler :=
  mkSched (policy sc) (rrq sc) m (levels sc) (quantum_by_level sc)
          (enable_aging sc) (aging_interval_ms sc) (last_age_ms sc).

Definition sched_with_levels (n : Z) (sc : Scheduler) : Scheduler :=
  mkSched (policy sc) (rrq sc) (mlfq sc) n (quantum_by_level sc)
          (enable_aging sc) (aging_interval_ms sc) (last_age_ms sc).

Definition sched_with_quanta (qs : list Z) (sc : Scheduler) : Scheduler :=
  mkSched (policy sc) (rrq sc) (mlfq sc) (levels sc) qs
          (enable_aging sc) (aging_interval_ms sc) (last_age_ms sc).



Definition sched_with_last_age (t : Z) (sc : Scheduler) : Scheduler :=
  mkSched (policy sc) (rrq sc) (mlfq sc) (levels sc) (quantum_by_level sc)
          (enable_aging sc) (aging_interval_ms sc) t.

(** The process-wide state. *)
Record Runtime := mkRuntime {
  g_sched : Scheduler;
  g_threads : list Thread;
  g_current : Z;
  g_next_tid : Z;
  g_resources : gmap string (list Z);
  g_tls : gmap Z (gmap string Z);
  g_log : list LogEntry
}.

Definition with_sched (sc : Scheduler) (s : Runtime) : Runtime :=
  mkRuntime sc (g_threads s) (g_current s) (g_next_tid s) (g_resources s)
            (g_tls s) (g_log s).

Definition with_threads (ths : list Thread) (s : Runtime) : Runtime :=
  mkRuntime (g_sched s) ths (g_current s) (g_next_tid s) (g_resources s)
            (g_tls s) (g_log s).

Definition with_current (c : Z) (s : Runtime) : Runtime :=
  mkRuntime (g_sched s) (g_threads s) c (g_next_tid s) (g_resources s)
            (g_tls s) (g_log s).

Definition with_next_tid (n : Z) (s : Runtime) : Runtime :=
  mkRuntime (g_sched s) (g_threads s) (g_current s) n (g_resources s)
            (g_tls s) (g_log s).

Definition with_resources (r : gmap string (list Z)) (s : Runtime) : Runtime :=
  mkRuntime (g_sched s) (g_threads s) (g_current s) (g_next_tid s) r
            (g_tls s) (g_log s).

Definition with_tls (t : gmap Z (gmap string Z)) (s : Runtime) : Runtime :=
  mkRuntime (g_sched s) (g_threads s) (g_current s) (g_next_tid s)
            (g_resources s) t (g_log s).

Definition with_log (l : list LogEntry) (s : Runtime) : Runtime :=
  mkRuntime (g_sched s) (g_threads s) (g_current s) (g_next_tid s)
            (g_resources s) (g_tls s) l.

(** [g_log.log(event, tid, info)]. *)
Definition log (ev : string) (t : Z) (inf : string) (s : Runtime) : Runtime :=
  with_log (g_log s ++ [mkLog ev t inf]) s.

(** The state of a fresh process: default member initialisers of
    [Scheduler], empty task table, [g_current = -1].  [boot] is the clock
    value read by the initialiser of [last_age_ms]. *)
Definition default_sched (boot : Z) : Scheduler :=
  mkSched RoundRobin [] [] 3 [8; 4; 2] true 500 boot.

Definition initial_runtime (boot : Z) : Runtime :=
  mkRuntime (default_sched boot) [] (-1) 0 ∅ ∅ [].

(** ** Scheduler *)

(** [Scheduler::set_policy_from_env].  The first test compares the policy
    with each of the three enumerators; [env] is [getenv "SCHED"]. *)
Definition set_policy_from_env (env : option string) (sc : Scheduler) : Scheduler :=
  let sc1 :=
    if negb (bool_decide (policy sc = RoundRobin))
       && negb (bool_decide (policy sc = Priority))
       && negb (bool_decide (policy sc = MLFQ))
    then sched_with_policy RoundRobin sc else sc in
  match env with
  | None => sc1
  | Some v =>
      if String.eqb v "prio" || String.eqb v "priority"
      then sched_with_policy Priority sc1
      else if String.eqb v "mlfq" then sched_with_policy MLFQ sc1
      else sched_with_policy RoundRobin sc1
  end.

(** The default quantum of level [i]: [std::max(1, 8 >> i)]. *)
Definition default_quantum (i : nat) : Z := Z.max 1 (Z.shiftr 8 (Z.of_nat i)).

(** [Scheduler::init_mlfq_if_needed]. *)
Definition init_mlfq_if_needed (sc : Scheduler) : res Scheduler :=
  sc1 ← (if bool_decide (Z.of_nat (length (mlfq sc)) ≠ levels sc)
         then if levels sc <? 0 then Fault BadAlloc
              else Ok (sched_with_mlfq (replicate (Z.to_nat (levels sc)) []) sc)
         else Ok sc);
  Ok (if bool_decide (Z.of_nat (length (quantum_by_level sc1)) ≠ levels sc1)
      then sched_with_quanta (default_quantum <$> seq 0 (Z.to_nat (levels sc1))) sc1
      else sc1).

(** [Scheduler::enqueue_rr]. *)
Definition enqueue_rr (t : Z) (sc : Scheduler) : Scheduler :=
  sched_with_rrq (rrq sc ++ [t]) sc.

(** The scan of [Scheduler::enqueue_prio] over the deque, and the insertion
    at the position where it stops. *)
Fixpoint enqueue_prio_scan (ths : list Thread) (t : Z) (q : list Z) : res (list Z) :=
  match q with
  | [] => Ok [t]
  | x :: q' =>
      a ← vec_at ths t;
      b ← vec_at ths x;
      if base_priority b <? base_priority a then Ok (t :: x :: q')
      else r ← enqueue_prio_scan ths t q'; Ok (x :: r)
  end.

Definition enqueue_prio (ths : list Thread) (t : Z) (sc : Scheduler) : res Scheduler :=
  q ← enqueue_prio_scan ths t (rrq sc);
  Ok (sched_with_rrq q sc).

(** [Scheduler::enqueue_mlfq]. *)
Definition enqueue_mlfq (ths : list Thread) (t : Z) (sc : Scheduler)
  : res (Scheduler * list Thread) :=
  sc1 ← init_mlfq_if_needed sc;
  th ← vec_at ths t;
  lvl ← clamp (mlfq_level th) 0 (levels sc1 - 1);
  q ← vec_at (quantum_by_level sc1) lvl;
  ths1 ← vec_set ths t (set_quantum_budget q (set_mlfq_level lvl th));
  old ← vec_at (mlfq sc1) lvl;
  m ← vec_set (mlfq sc1) lvl (old ++ [t]);
  Ok (sched_with_mlfq m sc1, ths1).

(** [Scheduler::enqueue], on the globals. *)
Definition enqueue (t : Z) (s : Runtime) : res Runtime :=
  match policy (g_sched s) with
  | RoundRobin => Ok (with_sched (enqueue_rr t (g_sched s)) s)
  | Priority =>
      sc ← enqueue_prio (g_threads s) t (g_sched s);
      Ok (with_sched sc s)
  | MLFQ =>
      r ← enqueue_mlfq (g_threads s) t (g_sched s);
      Ok (with_threads r.2 (with_sched r.1 s))
  end.

(** [Scheduler::empty]. *)
Definition empty (sc : Scheduler) : bool :=
  match policy sc with
  | MLFQ => forallb (fun q : list Z => bool_decide (q = [])) (mlfq sc)
  | _ => bool_decide (rrq sc = [])
  end.

(** The level scan of [Scheduler::pop]: [n] levels remain, starting at
    [lvl]. *)
Fixpoint pop_scan (n : nat) (lvl : Z) (m : list (list Z)) : res (Z * list (list Z)) :=
  match n with
  | O => Ok (-1, m)
  | S n' =>
      q ← vec_at m lvl;
      match q with
      | [] => pop_scan n' (lvl + 1) m
      | t :: q' => m' ← vec_set m lvl q'; Ok (t, m')
      end
  end.

(** [Scheduler::pop]. *)
Definition pop (sc : Scheduler) : res (Z * Scheduler) :=
  match policy sc with
  | MLFQ =>
      sc1 ← init_mlfq_if_needed sc;
      r ← pop_scan (Z.to_nat (levels sc1)) 0 (mlfq sc1);
      Ok (r.1, sched_with_mlfq r.2 sc1)
  | _ =>
      match rrq sc with
      | [] => Fault EmptyFront
      | t :: q' => Ok (t, sched_with_rrq q' sc)
      end
  end.

(** [Scheduler::demote_mlfq]. *)
Definition demote_mlfq (t : Z) (s : Runtime) : res Runtime :=
  match policy (g_sched s) with
  | MLFQ =>
      th ← vec_at (g_threads s) t;
      let lvl := Z.min (mlfq_level th + 1) (levels (g_sched s) - 1) in
      q ← vec_at (quantum_by_level (g_sched s)) lvl;
      ths ← vec_set (g_threads s) t (set_quantum_budget q (set_mlfq_level lvl th));
      Ok (with_threads ths s)
  | _ => Ok s
  end.

(** [Scheduler::promote_mlfq]. *)
Definition promote_mlfq (t : Z) (s : Runtime) : res Runtime :=
  match policy (g_sched s) with
  | MLFQ =>
      th ← vec_at (g_threads s) t;
      let lvl := Z.max (mlfq_level th - 1) 0 in
      q ← vec_at (quantum_by_level (g_sched s)) lvl;
      ths ← vec_set (g_threads s) t (set_quantum_budget q (set_mlfq_level lvl th));
      Ok (with_threads ths s)
  | _ => Ok s
  end.

(** The downward scan of [Scheduler::maybe_age]: the loop variable is
    [lvl = n], it stops at [lvl = 0]. *)
Fixpoint age_scan (n : nat) (s : Runtime) : res Runtime :=
  match n with
  | O => Ok s
  | S n' =>
      let lvl := Z.of_nat n in
      q ← vec_at (mlfq (g_sched s)) lvl;
      match q with
      | [] => age_scan n' s
      | t :: q' =>
          m1 ← vec_set (mlfq (g_sched s)) lvl q';
          th ← vec_at (g_threads s) t;
          let th1 := set_mlfq_level (lvl - 1) th in
          qn ← vec_at (quantum_by_level (g_sched s)) (mlfq_level th1);
          ths ← vec_set (g_threads s) t (set_quantum_budget qn th1);
          up ← vec_at m1 (lvl - 1);
          m2 ← vec_set m1 (lvl - 1) (up ++ [t]);
          Ok (log "age" t "promote"
                (with_threads ths (with_sched (sched_with_mlfq m2 (g_sched s)) s)))
      end
  end.

(** [Scheduler::maybe_age]; [now] is the value of [now_ms ()]. *)
Definition maybe_age (now : Z) (s : Runtime) : res Runtime :=
  if negb (bool_decide (policy (g_sched s) = MLFQ)) || negb (enable_aging (g_sched s))
  then Ok s
  else if now - last_age_ms (g_sched s) <? aging_interval_ms (g_sched s)
  then Ok s
  else
    let s1 := with_sched (sched_with_last_age now (g_sched s)) s in
    age_scan (Z.to_nat (levels (g_sched s1) - 1)) s1.

(** ** Public API and run loop *)

(** [thread_create]; defaults of the remaining members as in [struct Thread]. *)
Definition thread_create (nm : string) (priority : Z) (s : Runtime) : Z * Runtime :=
  let t := g_next_tid s in
  let p := if priority <? 1 then 1 else if 10 <? priority then 10 else priority in
  let th := mkThread t p p NEW nm false 0 8 0 in
  (t, with_threads (g_threads s ++ [th]) (with_next_tid (t + 1) s)).

Definition set_policy (p : SchedPolicy) (s : Runtime) : Runtime :=
  with_sched (sched_with_policy p (g_sched s)) s.

Definition mlfq_set_levels (n : Z) (s : Runtime) : Runtime :=
  with_sched (sched_with_levels (if n <? 1 then 1 else if 8 <? n then 8 else n)
                                (g_sched s)) s.

(** [mlfq_set_quantum_by_level]; the new size [level+1] is computed in
    [int]. *)
Definition mlfq_set_quantum_by_level (level quantum_units : Z) (s : Runtime)
  : res Runtime :=
  if level <? 0 then Ok s
  else
    let qs := quantum_by_level (g_sched s) in
    qs1 ← (if Z.of_nat (length qs) <=? level
           then n ← int_add level 1;
                Ok (qs ++ replicate (Z.to_nat n - length qs)%nat 2)
           else Ok qs);
    Ok (with_sched (sched_with_quanta (<[Z.to_nat level := Z.max 1 quantum_units]> qs1)
                                      (g_sched s)) s).



(** [tls_set]: [g_tls[tid][key] = value] with [tid = g_current]. *)
Definition tls_set (key : string) (value : Z) (s : Runtime) : Runtime :=
  let t := g_current s in
  with_tls (<[t := <[key := value]> (default ∅ (g_tls s !! t))]> (g_tls s)) s.

(** [tls_get]. *)
Definition tls_get (key : string) (s : Runtime) : option Z :=
  match g_tls s !! g_current s with
  | None => None
  | Some m => m !! key
  end.

(** [platform_yield_to_scheduler]: the task's context slot
    [g_threads[g_current].cx.ctx] is where the running side is saved; control
    then continues on the scheduler side. *)
Definition platform_yield_to_scheduler (s : Runtime) : res unit :=
  _ ← vec_at (g_threads s) (g_current s); Ok ().

(** A write through the reference [auto& th = g_threads[t]]: the record of
    task [t] becomes [th]. *)
Definition set_thread (t : Z) (th : Thread) (s : Runtime) : res Runtime :=
  ths ← vec_set (g_threads s) t th; Ok (with_threads ths s).

(** [thread_sleep]; the result is the state handed to the scheduler. *)
Definition thread_sleep (now ms : Z) (s : Runtime) : res Runtime :=
  let t := g_current s in
  th ← vec_at (g_threads s) t;
  s1 ← set_thread t (set_state SLEEPING (set_wake_time_ms (now + ms) th)) s;
  let s2 := log "sleep" t (pretty ms) s1 in
  s3 ← (if bool_decide (policy (g_sched s2) = MLFQ) then promote_mlfq t s2 else Ok s2);
  _ ← platform_yield_to_scheduler s3;
  Ok s3.

(** [thread_wait]; the result is the state handed to the scheduler. *)
Definition thread_wait (resource : string) (s : Runtime) : res Runtime :=
  let t := g_current s in
  th ← vec_at (g_threads s) t;
  s1 ← set_thread t (set_state BLOCKED th) s;
  let s2 := with_resources
              (<[resource := default [] (g_resources s1 !! resource) ++ [t]]>
                 (g_resources s1)) s1 in
  let s3 := log "wait" t resource s2 in
  s4 ← (if bool_decide (policy (g_sched s3) = MLFQ) then promote_mlfq t s3 else Ok s3);
  _ ← platform_yield_to_scheduler s4;
  Ok s4.

(** [thread_signal]. *)
Definition thread_signal (resource : string) (s : Runtime) : res Runtime :=
  match g_resources s !! resource with
  | None => Ok s
  | Some [] => Ok s
  | Some (t :: rest) =>
      let s1 := with_resources (<[resource := rest]> (g_resources s)) s in
      th ← vec_at (g_threads s1) t;
      if bool_decide (state th = BLOCKED) then
        s2 ← set_thread t (set_state READY th) s1;
        s3 ← enqueue t s2;
        Ok (log "signal" t resource s3)
      else Ok s1
  end.

(** How a call of [thread_work] proceeds: it returns at once with the
    remaining budget, or it hands control to the scheduler and returns only
    after the task has been dispatched again ([thread_work_resume]). *)
Inductive work_outcome :=
  | WorkReturns (remaining : Z)
  | WorkSuspends.

(** [thread_work], up to its return or its suspension. *)
Definition thread_work (units : Z) (s : Runtime) : res (Runtime * work_outcome) :=
  let t := g_current s in
  th ← vec_at (g_threads s) t;
  b ← int_sub (quantum_budget th) (Z.max 1 units);
  s1 ← set_thread t (set_quantum_budget b th) s;
  if b <=? 0 then
    let s2 := log "qexpire" t "auto-yield" s1 in
    s3 ← (if bool_decide (policy (g_sched s2) = MLFQ) then demote_mlfq t s2 else Ok s2);
    th3 ← vec_at (g_threads s3) t;
    s4 ← (if bool_decide (state th3 = RUNNING)
          then s' ← set_thread t (set_state READY th3) s3; enqueue t s'
          else Ok s3);
    _ ← platform_yield_to_scheduler s4;
    Ok (s4, WorkSuspends)
  else Ok (s1, WorkReturns b).

(** The tail of a suspended [thread_work] call of task [t]:
    [return th.quantum_budget], evaluated in the state [s] in which the task
    is running again. *)
Definition thread_work_resume (t : Z) (s : Runtime) : res Z :=
  th ← vec_at (g_threads s) t; Ok (quantum_budget th).

(** [context_trampoline] up to the call of the entry closure. *)
Definition context_trampoline_enter (t : Z) (s : Runtime) : res Runtime :=
  let s1 := with_current t s in
  th ← vec_at (g_threads s1) t;
  s2 ← set_thread t (set_state RUNNING th) s1;
  let s3 := log "start" t (name th) s2 in
  q ← (if bool_decide (policy (g_sched s3) = MLFQ)
       then vec_at (quantum_by_level (g_sched s3)) (mlfq_level th)
       else Ok (Z.max 1 (quantum_budget th)));
  th3 ← vec_at (g_threads s3) t;
  set_thread t (set_quantum_budget q th3) s3.

(** [context_trampoline] after the entry closure has returned. *)
Definition context_trampoline_exit (t : Z) (s : Runtime) : res Runtime :=
  th ← vec_at (g_threads s) t;
  s1 ← set_thread t (set_state FINISHED th) s;
  let s2 := log "finish" t "" s1 in
  _ ← platform_yield_to_scheduler s2;
  Ok s2.

(** [ensure_context]: the context of task [tid] is built if the task is
    still NEW, and only then. *)
Definition ensure_context (tid : Z) (s : Runtime) : res Runtime :=
  th ← vec_at (g_threads s) tid;
  if bool_decide (state th = NEW) then set_thread tid (set_cx_made true th) s
  else Ok s.

(** [switch_to_thread]: the result is the state in which task [next_tid]
    continues.  The closing [swapcontext] loads [th.cx.ctx]; it is a defined
    execution only if that context has been built. *)
Definition switch_to_thread (next_tid : Z) (s : Runtime) : res Runtime :=
  s0 ← ensure_context next_tid s;
  let s1 := with_current next_tid s0 in
  th ← vec_at (g_threads s1) next_tid;
  let th1 := set_state RUNNING th in
  q ← (if bool_decide (policy (g_sched s1) = MLFQ)
       then vec_at (quantum_by_level (g_sched s1)) (mlfq_level th1)
       else Ok (quantum_budget th1));
  s2 ← set_thread next_tid (set_quantum_budget q th1) s1;
  let s3 := log "run" next_tid (name th) s2 in
  if cx_made th then Ok s3 else Fault (NoContext next_tid).

(** [all_done]. *)
Definition all_done (s : Runtime) : bool :=
  forallb (fun th => bool_decide (state th = FINISHED)) (g_threads s).

(** The body of the loops [for (auto& th : g_threads)] of [schedule_once] and
    [wake_sleepers], at position [i] of the table: a task satisfying [cond]
    becomes READY, is enqueued and the event [ev] is logged. *)
Definition admit_at (cond : Thread -> bool) (ev : string) (i : nat) (s : Runtime)
  : res Runtime :=
  match g_threads s !! i with
  | None => Fault (OutOfRange (Z.of_nat i))
  | Some th =>
      if cond th then
        let s1 := with_threads (<[i := set_state READY th]> (g_threads s)) s in
        s2 ← enqueue (tid th) s1;
        Ok (log ev (tid th) "" s2)
      else Ok s
  end.

Fixpoint admit_loop (cond : Thread -> bool) (ev : string) (idx : list nat) (s : Runtime)
  : res Runtime :=
  match idx with
  | [] => Ok s
  | i :: rest => s1 ← admit_at cond ev i s; admit_loop cond ev rest s1
  end.

(** [wake_sleepers]. *)
Definition wake_sleepers (now : Z) (s : Runtime) : res Runtime :=
  admit_loop (fun th => bool_decide (state th = SLEEPING) && (wake_time_ms th <=? now))
             "wakeup" (seq 0 (length (g_threads s))) s.

(** [schedule_once]: the state after the iteration and the task dispatched,
    if any.  [now] holds the two clock readings of the iteration, the one of
    [wake_sleepers] and the one of [maybe_age]. *)
Definition schedule_once (now : Z * Z) (s : Runtime) : res (Runtime * option Z) :=
  s1 ← admit_loop (fun th => bool_decide (state th = NEW)) "ready"
                  (seq 0 (length (g_threads s))) s;
  s2 ← wake_sleepers now.1 s1;
  s3 ← maybe_age now.2 s2;
  if empty (g_sched s3) then Ok (s3, None)
  else
    r ← pop (g_sched s3);
    let s4 := with_sched r.2 s3 in
    if 0 <=? r.1 then s5 ← switch_to_thread r.1 s4; Ok (s5, Some r.1)
    else Ok (s4, None).

(** [thread_yield]; the result is the state handed to the scheduler. *)
Definition thread_yield (s : Runtime) : res Runtime :=
  let t := g_current s in
  s1 ← (if 0 <=? t then
          th ← vec_at (g_threads s) t;
          if bool_decide (state th = RUNNING) then
            s' ← set_thread t (set_state READY th) s;
            s'' ← enqueue t s';
            Ok (log "yield" t "" s'')
          else Ok s
        else Ok s);
  _ ← platform_yield_to_scheduler s1;
  Ok s1.

(** [thread_run] up to its loop: the policy is fixed and [boot] logged. *)
Definition thread_run_boot (env : option string) (s : Runtime) : Runtime :=
  let s1 := with_sched (set_policy_from_env env (g_sched s)) s in
  log "boot" (-1)
      (match policy (g_sched s1) with
       | RoundRobin => "rr" | Priority => "prio" | MLFQ => "mlfq"
       end) s1.

(** ** Auxiliary notions used to state the properties *)

(** [t] indexes the task table. *)
Definition valid_tid (ths : list Thread) (t : Z) : Prop :=
  0 <= t < Z.of_nat (length ths).

(** The tids held by the ready structure of the active discipline. *)
Definition ready_tids (sc : Scheduler) : list Z :=
  match policy sc with
  | MLFQ => concat (mlfq sc)
  | _ => rrq sc
  end.

(** Conditions under which [Scheduler::enqueue] is a defined execution: the
    single queue only names tasks of the table, and there is at least one
    MLFQ level. *)
Definition enqueue_ready (s : Runtime) : Prop :=
  Forall (valid_tid (g_threads s)) (rrq (g_sched s)) /\ 1 <= levels (g_sched s).

(** [base_priority] of task [t], as read by [ths[t].base_priority]. *)
Definition prio_of (ths : list Thread) (t : Z) : Z :=
  match vec_at ths t with
  | Ok th => base_priority th
  | Fault _ => 0
  end.

(** A sequence of calls of [Scheduler::enqueue_prio], in order. *)
Fixpoint enqueue_prio_seq (ths : list Thread) (ts : list Z) (q : list Z) : res (list Z) :=
  match ts with
  | [] => Ok q
  | t :: rest => q1 ← enqueue_prio_scan ths t q; enqueue_prio_seq ths rest q1
  end.

(** The queue is ordered by non-increasing [base_priority]. *)
Fixpoint prio_sorted (ths : list Thread) (q : list Z) : Prop :=
  match q with
  | [] => True
  | x :: q' => Forall (fun y => prio_of ths y <= prio_of ths x) q' /\ prio_sorted ths q'
  end.

(** The tids of [q] whose [base_priority] is [p], in queue order. *)
Definition with_prio (ths : list Thread) (p : Z) (q : list Z) : list Z :=
  filter (fun x => prio_of ths x = p) q.

(** Task-local storage as seen by task [t]: the calls are made while
    [g_current = t]. *)
Definition tls_set_as (t : Z) (key : string) (value : Z) (s : Runtime) : Runtime :=
  tls_set key value (with_current t s).

Definition tls_get_as (t : Z) (key : string) (s : Runtime) : option Z :=
  tls_get key (with_current t s).

(** A sequence of [tls_set] calls, each with the task that makes it. *)
Fixpoint tls_run (ops : list (Z * string * Z)) (s : Runtime) : Runtime :=
  match ops with
  | [] => s
  | (t, k, v) :: rest => tls_run rest (tls_set_as t k v s)
  end.




(** [s'] has the policy of [s] and, except for task [u] (if any), the
    quantum budgets of [s], as a suspended [thread_work] call would read
    them. *)
Definition budgets_kept_except (u : option Z) (s s' : Runtime) : Prop :=
  policy (g_sched s') = policy (g_sched s) /\
  forall t, Some t <> u -> thread_work_resume t s' = thread_work_resume t s.

Definition budgets_kept (s s' : Runtime) : Prop := budgets_kept_except None s s'.

(** ** Concrete runs *)

(** One task "A" created before [thread_run], no [SCHED] in the environment;
    the clock reads 0 at start-up. *)
Definition rr_one_task : Runtime :=
  thread_run_boot None (thread_create "A" 1 (initial_runtime 0)).2.

(** Task 0 is running with [budget] units left at MLFQ level [level], its
    context built; the ready structure holds [q] (single queue) and [m]
    (MLFQ levels), and the table also holds the tasks [others] (tids 1, 2,
    ...). *)
Definition task_A (st : ThreadState) (budget level : Z) : Thread :=
  mkThread 0 1 1 st "A" true 0 budget level.

Definition one_running (p : SchedPolicy) (budget level : Z) (q : list Z)
           (m : list (list Z)) (others : list Thread) : Runtime :=
  mkRuntime (mkSched p q m 3 [8; 4; 2] true 500 0)
            (task_A RUNNING budget level :: others) 0 (1 + Z.of_nat (length others))
            ∅ ∅ [].

(** Task "A" is running under RoundRobin with its 8 units. *)
Definition rr_running : Runtime :=
  one_running RoundRobin 8 0 [] [[]; []; []] [].


(** Task "A" has run before (its context is built), has yielded and is
    queued again under RoundRobin. *)
Definition rr_requeued : Runtime :=
  mkRuntime (mkSched RoundRobin [0] [] 3 [8; 4; 2] true 500 0)
            [task_A READY 8 0] 0 1 ∅ ∅ [].

(** Three tasks of priorities 5, 9 and 5. *)
Definition three_tasks : list Thread :=
  [mkThread 0 5 5 READY "mid" true 0 8 0;
   mkThread 1 9 9 READY "high" true 0 8 0;
   mkThread 2 5 5 READY "mid2" true 0 8 0].

(** The three tasks under the Priority policy, "high" and "mid" queued. *)
Definition prio_two_queued : Runtime :=
  mkRuntime (mkSched Priority [1; 0] [] 3 [8; 4; 2] true 500 0) three_tasks 0 3 ∅ ∅ [].

(** Task 1 ("W") is blocked on "go" while task 0 runs. *)
Definition waiting_on_go : Runtime :=
  with_resources {[ "go"%string := [1] ]}
    (one_running RoundRobin 8 0 [] [[]; []; []] [mkThread 1 5 5 BLOCKED "W" true 0 8 0]).

(** ** Further notions *)

(** Tids are dense: the task at index [i] of the table has tid [i], and the
    next tid is the size of the table. *)
Definition tids_dense (s : Runtime) : Prop :=
  g_next_tid s = Z.of_nat (length (g_threads s)) /\
  forall i th, g_threads s !! i = Some th -> tid th = Z.of_nat i.

(** Every configured quantum is at least 1. *)
Definition quanta_positive (sc : Scheduler) : Prop :=
  Forall (fun q => 1 <= q) (quantum_by_level sc).

(** The MLFQ queues and quanta are sized to [levels]. *)
Definition mlfq_sized (sc : Scheduler) : Prop :=
  Z.of_nat (length (mlfq sc)) = levels sc /\
  Z.of_nat (length (quantum_by_level sc)) = levels sc.

(** No task of the table is RUNNING. *)
Definition none_running (s : Runtime) : Prop :=
  Forall (fun th => state th <> RUNNING) (g_threads s).

(** A sequence of [Scheduler::enqueue] calls, in order. *)
Fixpoint enqueue_seq (ts : list Z) (s : Runtime) : res Runtime :=
  match ts with
  | [] => Ok s
  | t :: rest => s1 ← enqueue t s; enqueue_seq rest s1
  end.

(** [n] calls of [Scheduler::pop], with the tids they return in order. *)
Fixpoint pop_n (n : nat) (sc : Scheduler) : res (list Z * Scheduler) :=
  match n with
  | O => Ok ([], sc)
  | S n' =>
      r ← pop sc;
      r' ← pop_n n' r.2;
      Ok (r.1 :: r'.1, r'.2)
  end.

(** A sequence of [thread_create] calls (name and priority of each), with
    the tids they return. *)
Fixpoint create_all (specs : list (string * Z)) (s : Runtime) : list Z * Runtime :=
  match specs with
  | [] => ([], s)
  | (nm, p) :: rest =>
      let r := thread_create nm p s in
      let r' := create_all rest r.2 in
      (r.1 :: r'.1, r'.2)
  end.

(** Tasks "A" and "B" created after [set_policy MLFQ] and before
    [thread_run], no [SCHED] in the environment. *)
Definition mlfq_two_tasks : Runtime :=
  thread_run_boot None
    (create_all [("A"%string, 1); ("B"%string, 5)]
                (set_policy MLFQ (initial_runtime 0))).2.

(** What the loops of [schedule_once] and [wake_sleepers] do to one task
    record. *)
Definition admitted (cond : Thread -> bool) (th : Thread) : Thread :=
  if cond th then set_state READY th else th.

(** What a suspending call of the running task does to the task states:
    the caller gets a state other than RUNNING, nobody else changes. *)
Definition suspended_to (s s' : Runtime) : Prop :=
  exists st,
    st <> RUNNING /\ 0 <= g_current s /\
    state <$> g_threads s' = <[Z.to_nat (g_current s) := st]> (state <$> g_threads s).

(** [s'] has the current task of [s] and no RUNNING task that [s] did not
    have. *)
Definition no_new_running (s s' : Runtime) : Prop :=
  g_current s' = g_current s /\
  forall i, (state <$> g_threads s') !! i = Some RUNNING ->
            (state <$> g_threads s) !! i = Some RUNNING.

(** * Verification *)

(** ** Basic facts about defined executions *)

Lemma bind_Ok {A B} (m : res A) (f : A -> res B) (b : B) :
  m ≫= f = Ok b -> exists a, m = Ok a /\ f a = Ok b.
Proof. destruct m as [a|e]; simpl; [eauto | discriminate]. Qed.

Lemma vec_at_Ok {A} (v : list A) (i : Z) (a : A) :
  vec_at v i = Ok a <-> 0 <= i /\ v !! Z.to_nat i = Some a.
Proof.
  unfold vec_at. destruct (Z.ltb_spec i 0).
  - split; [discriminate | lia].
  - destruct (v !! Z.to_nat i) eqn:E; split; intros H1; try discriminate.
    + injection H1 as ->. auto.
    + destruct H1 as [_ H1]. congruence.
    + destruct H1 as [_ H1]. discriminate.
Qed.

Lemma vec_at_valid {A} (v : list A) (i : Z) :
  0 <= i < Z.of_nat (length v) -> exists a, vec_at v i = Ok a.
Proof.
  intros Hi. destruct (lookup_lt_is_Some_2 v (Z.to_nat i)) as [a Ha]; [lia|].
  exists a. apply vec_at_Ok. split; [lia | done].
Qed.

Lemma vec_at_Ok_valid {A} (v : list A) (i : Z) (a : A) :
  vec_at v i = Ok a -> 0 <= i < Z.of_nat (length v).
Proof.
  intros [H0 H1]%vec_at_Ok. apply lookup_lt_Some in H1. lia.
Qed.

Lemma vec_set_Ok {A} (v : list A) (i : Z) (a b : A) :
  vec_at v i = Ok a -> vec_set v i b = Ok (<[Z.to_nat i := b]> v).
Proof. intros H. unfold vec_set. rewrite H. reflexivity. Qed.

Lemma vec_set_inv {A} (v v' : list A) (i : Z) (b : A) :
  vec_set v i b = Ok v' ->
  v' = <[Z.to_nat i := b]> v /\ 0 <= i < Z.of_nat (length v).
Proof.
  unfold vec_set. intros (a & Ha & Hr)%bind_Ok. injection Hr as <-.
  split; [done | by eapply vec_at_Ok_valid].
Qed.

Lemma vec_at_insert_eq {A} (v : list A) (i : Z) (b : A) :
  0 <= i < Z.of_nat (length v) -> vec_at (<[Z.to_nat i := b]> v) i = Ok b.
Proof.
  intros Hi. apply vec_at_Ok. split; [lia|].
  apply list_lookup_insert_eq. lia.
Qed.

Lemma vec_at_insert_ne {A} (v : list A) (i j : Z) (b : A) :
  0 <= i -> i <> j -> vec_at (<[Z.to_nat i := b]> v) j = vec_at v j.
Proof.
  intros Hi Hne. unfold vec_at. destruct (Z.ltb_spec j 0); [done|].
  rewrite list_lookup_insert_ne; [done | lia].
Qed.

Lemma int_sub_Ok (a b : Z) : in_int (a - b) -> int_sub a b = Ok (a - b).
Proof.
  unfold in_int, int_sub. intros [H1 H2].
  destruct (Z.leb_spec INT_MIN (a - b)); [|lia].
  destruct (Z.leb_spec (a - b) INT_MAX); [done | lia].
Qed.

(** ** The MLFQ queues *)

Lemma init_mlfq_if_needed_Ok (sc : Scheduler) :
  0 <= levels sc ->
  exists sc1,
    init_mlfq_if_needed sc = Ok sc1 /\
    Z.of_nat (length (mlfq sc1)) = levels sc /\
    Z.of_nat (length (quantum_by_level sc1)) = levels sc /\
    levels sc1 = levels sc /\ policy sc1 = policy sc /\ rrq sc1 = rrq sc /\
    (Z.of_nat (length (quantum_by_level sc)) = levels sc ->
     quantum_by_level sc1 = quantum_by_level sc) /\
    (Z.of_nat (length (mlfq sc)) = levels sc -> mlfq sc1 = mlfq sc).
Proof.
  intros Hl. unfold init_mlfq_if_needed.
  destruct (Z.ltb_spec (levels sc) 0); [lia|].
  destruct (decide (Z.of_nat (length (mlfq sc)) = levels sc)) as [Hm|Hm];
    [rewrite (bool_decide_eq_false_2 (_ ≠ _)) by (intros Hn; by apply Hn)
    |rewrite (bool_decide_eq_true_2 (_ ≠ _)) by done]; simpl;
    (destruct (decide (Z.of_nat (length (quantum_by_level sc)) = levels sc)) as [Hq|Hq];
     [rewrite (bool_decide_eq_false_2 (_ ≠ _)) by (intros Hn; by apply Hn)
     |rewrite (bool_decide_eq_true_2 (_ ≠ _)) by done]);
    eexists; (split; [reflexivity|]); simpl;
    rewrite ?length_replicate, ?length_fmap, ?length_seq;
    repeat split; try lia; try done.
Qed.

Lemma elem_of_concat_insert (m : list (list Z)) (i : nat) (q : list Z) (t : Z) :
  (i < length m)%nat -> t ∈ q -> t ∈ concat (<[i := q]> m).
Proof.
  intros Hi Ht. apply list_elem_of_In, in_concat. exists q.
  split; [|by apply list_elem_of_In].
  apply list_elem_of_In, list_elem_of_lookup. exists i. by apply list_lookup_insert_eq.
Qed.

Lemma enqueue_mlfq_Ok (ths : list Thread) (t : Z) (sc : Scheduler) (th : Thread) :
  vec_at ths t = Ok th -> 1 <= levels sc ->
  exists sc' q,
    let lvl := if mlfq_level th <? 0 then 0
               else if levels sc - 1 <? mlfq_level th then levels sc - 1
               else mlfq_level th in
    enqueue_mlfq ths t sc =
      Ok (sc', <[Z.to_nat t := set_quantum_budget q (set_mlfq_level lvl th)]> ths) /\
    t ∈ concat (mlfq sc') /\
    policy sc' = policy sc /\ levels sc' = levels sc /\ rrq sc' = rrq sc.
Proof.
  intros Hth Hl.
  destruct (init_mlfq_if_needed_Ok sc) as (sc1 & Hi & Hm & Hq & Hlv & Hp & Hr & _); [lia|].
  set (lvl := if mlfq_level th <? 0 then 0
              else if levels sc - 1 <? mlfq_level th then levels sc - 1
              else mlfq_level th).
  assert (Hlvl : 0 <= lvl < levels sc).
  { subst lvl. destruct (Z.ltb_spec (mlfq_level th) 0); [lia|].
    destruct (Z.ltb_spec (levels sc - 1) (mlfq_level th)); lia. }
  destruct (vec_at_valid (quantum_by_level sc1) lvl) as [q Hqv]; [lia|].
  destruct (vec_at_valid (mlfq sc1) lvl) as [old Hold]; [lia|].
  exists (sched_with_mlfq (<[Z.to_nat lvl := old ++ [t]]> (mlfq sc1)) sc1), q.
  simpl. split; [|split].
  - unfold enqueue_mlfq. rewrite Hi. simpl. rewrite Hth. simpl.
    unfold clamp. rewrite Hlv. destruct (Z.ltb_spec (levels sc - 1) 0); [lia|]. simpl.
    fold lvl. rewrite Hqv. simpl.
    rewrite (vec_set_Ok _ _ th) by done. simpl. rewrite Hold. simpl.
    rewrite (vec_set_Ok _ _ old) by done. reflexivity.
  - apply elem_of_concat_insert; [lia|]. apply elem_of_app. right. by apply list_elem_of_singleton.
  - auto.
Qed.

Lemma set_thread_Ok (t : Z) (th th' : Thread) (s : Runtime) :
  vec_at (g_threads s) t = Ok th ->
  set_thread t th' s = Ok (with_threads (<[Z.to_nat t := th']> (g_threads s)) s).
Proof. intros H. unfold set_thread. by rewrite (vec_set_Ok _ _ th). Qed.

(** A [thread_work] call that exhausts the quantum under MLFQ suspends with
    the task one level down (or still at the last level). *)
Lemma thread_work_expires_mlfq (units : Z) (s : Runtime) (th : Thread) :
  policy (g_sched s) = MLFQ ->
  vec_at (g_threads s) (g_current s) = Ok th ->
  in_int (quantum_budget th - Z.max 1 units) ->
  quantum_budget th - Z.max 1 units <= 0 ->
  0 <= mlfq_level th ->
  1 <= levels (g_sched s) <= Z.of_nat (length (quantum_by_level (g_sched s))) ->
  exists s' th',
    thread_work units s = Ok (s', WorkSuspends) /\
    g_log s' = g_log s ++ [mkLog "qexpire" (g_current s) "auto-yield"] /\
    vec_at (g_threads s') (g_current s) = Ok th' /\
    mlfq_level th' = Z.min (mlfq_level th + 1) (levels (g_sched s) - 1).
Proof.
  intros Hp Hth Hint Hb Hlv [Hl1 Hl2].
  pose proof (vec_at_Ok_valid _ _ _ Hth) as Hv.
  set (t := g_current s) in *.
  set (b := quantum_budget th - Z.max 1 units) in *.
  set (L := Z.min (mlfq_level th + 1) (levels (g_sched s) - 1)).
  assert (HL : 0 <= L < levels (g_sched s)) by (subst L; lia).
  destruct (vec_at_valid (quantum_by_level (g_sched s)) L) as [q Hq]; [lia|].
  set (th1 := set_quantum_budget q (set_mlfq_level L (set_quantum_budget b th))).
  unfold thread_work. fold t. rewrite Hth. simpl.
  rewrite int_sub_Ok by done. simpl. fold b.
  rewrite (set_thread_Ok t th) by done. simpl.
  destruct (Z.leb_spec b 0); [|lia].
  rewrite Hp. simpl.
  unfold demote_mlfq. simpl. rewrite Hp.
  rewrite vec_at_insert_eq by done. simpl. fold L. rewrite Hq. simpl.
  rewrite (vec_set_Ok _ _ (set_quantum_budget b th)) by (by apply vec_at_insert_eq).
  simpl. rewrite list_insert_insert_eq.
  rewrite vec_at_insert_eq by done. simpl. fold th1.
  case_bool_decide as Hrun; simpl.
  - rewrite (set_thread_Ok t th1) by (by apply vec_at_insert_eq).
    simpl. rewrite list_insert_insert_eq.
    unfold enqueue. simpl. rewrite Hp.
    destruct (enqueue_mlfq_Ok (<[Z.to_nat t := set_state READY th1]> (g_threads s)) t (g_sched s)
                (set_state READY th1)) as (sc' & q' & He & _); [by apply vec_at_insert_eq | done |].
    simpl in He.
    destruct (Z.ltb_spec L 0); [lia|].
    destruct (Z.ltb_spec (levels (g_sched s) - 1) L); [lia|].
    rewrite He. simpl. rewrite list_insert_insert_eq.
    unfold platform_yield_to_scheduler. simpl.
    rewrite vec_at_insert_eq by done. simpl.
    eexists _, _. split; [reflexivity|]. simpl.
    split; [reflexivity|]. split; [by apply vec_at_insert_eq | reflexivity].
  - unfold platform_yield_to_scheduler. simpl.
    rewrite vec_at_insert_eq by done. simpl.
    eexists _, _. split; [reflexivity|]. simpl.
    split; [reflexivity|]. split; [by apply vec_at_insert_eq | reflexivity].
Qed.

(** ** The priority queue *)

Section PriorityQueue.

(** The task table is fixed: [enqueue_prio] only reads it. *)
Variable ths : list Thread.

Lemma prio_of_Ok (t : Z) (th : Thread) :
  vec_at ths t = Ok th -> prio_of ths t = base_priority th.
Proof. intros H. unfold prio_of. by rewrite H. Qed.

(** Where [enqueue_prio] puts the incoming task. *)
Lemma enqueue_prio_scan_split (t : Z) (q : list Z) :
  valid_tid ths t -> Forall (valid_tid ths) q ->
  exists l1 l2,
    q = l1 ++ l2 /\
    enqueue_prio_scan ths t q = Ok (l1 ++ t :: l2) /\
    Forall (fun x => prio_of ths t <= prio_of ths x) l1 /\
    match l2 with
    | [] => True
    | y :: _ => prio_of ths y < prio_of ths t
    end.
Proof.
  intros Ht Hq. destruct (vec_at_valid ths t Ht) as [a Ha].
  induction Hq as [|x q Hx Hq IH]; simpl.
  - exists [], []. repeat split; constructor.
  - destruct (vec_at_valid ths x Hx) as [b Hb]. rewrite Ha, Hb. simpl.
    destruct (Z.ltb_spec (base_priority b) (base_priority a)) as [Hlt|Hge].
    + exists [], (x :: q). repeat split; [constructor|].
      by rewrite (prio_of_Ok _ _ Ha), (prio_of_Ok _ _ Hb).
    + destruct IH as (l1 & l2 & -> & He & Hl1 & Hl2).
      exists (x :: l1), l2. rewrite He. repeat split; [|done].
      constructor; [|done].
      by rewrite (prio_of_Ok _ _ Ha), (prio_of_Ok _ _ Hb).
Qed.

Lemma enqueue_prio_scan_valid (t : Z) (q q' : list Z) :
  valid_tid ths t -> Forall (valid_tid ths) q ->
  enqueue_prio_scan ths t q = Ok q' -> Forall (valid_tid ths) q'.
Proof.
  intros Ht Hq He.
  destruct (enqueue_prio_scan_split t q Ht Hq) as (l1 & l2 & -> & He' & _).
  rewrite He' in He. injection He as <-.
  apply Forall_app in Hq as [H1 H2]. apply Forall_app. split; [done|].
  by constructor.
Qed.

Lemma with_prio_lower (p : Z) (l : list Z) :
  Forall (fun y => prio_of ths y < p) l -> with_prio ths p l = [].
Proof.
  unfold with_prio. induction 1 as [|y l Hy _ IH]; [done|].
  rewrite filter_cons_False by lia. exact IH.
Qed.

Lemma prio_sorted_app_r (l1 l2 : list Z) :
  prio_sorted ths (l1 ++ l2) -> prio_sorted ths l2.
Proof. induction l1 as [|x l1 IH]; simpl; [done | tauto]. Qed.

Lemma prio_sorted_insert (t : Z) (l1 l2 : list Z) :
  prio_sorted ths (l1 ++ l2) ->
  Forall (fun x => prio_of ths t <= prio_of ths x) l1 ->
  Forall (fun y => prio_of ths y < prio_of ths t) l2 ->
  prio_sorted ths (l1 ++ t :: l2).
Proof.
  intros Hs Hl1 Hlow. induction Hl1 as [|x l1 Hx Hl1 IH]; simpl in *.
  - split; [|done]. eapply Forall_impl; [exact Hlow|]. simpl. intros; lia.
  - destruct Hs as [Hxs Hs]. split; [|by apply IH].
    apply Forall_app in Hxs as [Hxa Hxb]. apply Forall_app. split; [done|].
    constructor; [lia | done].
Qed.

(** On an ordered queue the incoming task lands behind every queued task of
    its own priority. *)
Lemma enqueue_prio_scan_sorted (t : Z) (q : list Z) :
  valid_tid ths t -> Forall (valid_tid ths) q -> prio_sorted ths q ->
  exists q',
    enqueue_prio_scan ths t q = Ok q' /\
    prio_sorted ths q' /\
    forall p, with_prio ths p q' = with_prio ths p q ++ with_prio ths p [t].
Proof.
  intros Ht Hq Hs.
  destruct (enqueue_prio_scan_split t q Ht Hq) as (l1 & l2 & -> & He & Hl1 & Hl2).
  exists (l1 ++ t :: l2). split; [done|].
  assert (Hlow : Forall (fun y => prio_of ths y < prio_of ths t) l2).
  { apply prio_sorted_app_r in Hs. destruct l2 as [|y l2]; [constructor|].
    destruct Hs as [Hy _]. constructor; [done|].
    eapply Forall_impl; [exact Hy|]. simpl. intros; lia. }
  split; [by apply prio_sorted_insert|].
  - intros p. unfold with_prio. rewrite !filter_app. rewrite <- app_assoc. f_equal.
    rewrite filter_cons. destruct (decide (prio_of ths t = p)) as [<-|Hne].
    + fold (with_prio ths (prio_of ths t) l2). rewrite with_prio_lower by done.
      rewrite (filter_cons_True _ t []) by done. reflexivity.
    + rewrite (filter_cons_False _ t []) by done. simpl.
      rewrite filter_nil. by rewrite app_nil_r.
Qed.

Lemma enqueue_prio_seq_fifo (ts q : list Z) :
  Forall (valid_tid ths) ts -> Forall (valid_tid ths) q -> prio_sorted ths q ->
  exists q',
    enqueue_prio_seq ths ts q = Ok q' /\
    prio_sorted ths q' /\
    forall p, with_prio ths p q' = with_prio ths p q ++ with_prio ths p ts.
Proof.
  intros Hts. revert q. induction Hts as [|t ts Ht Hts IH]; intros q Hq Hs; simpl.
  - exists q. repeat split; [done|]. intros p. unfold with_prio at 3.
    rewrite filter_nil. by rewrite app_nil_r.
  - destruct (enqueue_prio_scan_sorted t q Ht Hq Hs) as (q1 & He & Hs1 & Hf1).
    rewrite He. simpl.
    destruct (IH q1) as (q' & He' & Hs' & Hf'); [by eapply enqueue_prio_scan_valid | done |].
    exists q'. repeat split; [done..|].
    intros p. rewrite Hf', Hf1, <- app_assoc. f_equal.
    unfold with_prio. by rewrite <- filter_app.
Qed.

End PriorityQueue.

(** [Scheduler::enqueue] is defined on a well-formed ready structure, puts
    the task into it and touches nothing but the ready structure and, under
    MLFQ, the level and budget of the task. *)
Lemma enqueue_Ok (t : Z) (s : Runtime) (th : Thread) :
  enqueue_ready s -> vec_at (g_threads s) t = Ok th ->
  exists s' th',
    enqueue t s = Ok s' /\
    t ∈ ready_tids (g_sched s') /\
    g_threads s' = <[Z.to_nat t := th']> (g_threads s) /\
    state th' = state th /\
    g_log s' = g_log s /\ g_resources s' = g_resources s /\
    g_tls s' = g_tls s /\ g_current s' = g_current s.
Proof.
  intros [Hq Hl] Hth. pose proof (vec_at_Ok_valid _ _ _ Hth) as Hv.
  assert (Hid : g_threads s = <[Z.to_nat t := th]> (g_threads s)).
  { symmetry. apply list_insert_id. by apply vec_at_Ok in Hth as [_ ?]. }
  unfold enqueue, ready_tids. destruct (policy (g_sched s)) eqn:Hp.
  - eexists _, th. split; [reflexivity|]. simpl. rewrite Hp.
    split; [|done]. apply elem_of_app. right. by apply list_elem_of_singleton.
  - destruct (enqueue_prio_scan_split (g_threads s) t (rrq (g_sched s)) Hv Hq)
      as (l1 & l2 & Hsplit & He & _).
    unfold enqueue_prio. rewrite He. simpl.
    eexists _, th. split; [reflexivity|]. simpl. rewrite Hp.
    split; [|done]. apply elem_of_app. right. by left.
  - destruct (enqueue_mlfq_Ok (g_threads s) t (g_sched s) th Hth Hl)
      as (sc' & q & He & Hin & Hp' & _).
    simpl in He. rewrite He. simpl.
    eexists _, _. split; [reflexivity|]. simpl. rewrite Hp', Hp.
    split; [done|]. split; [reflexivity|]. done.
Qed.


(** ** Aging *)

(** The downward scan promotes the head of the highest-index non-empty level
    among [1..n], or leaves the state alone when these are all empty. *)
Lemma age_scan_spec (n : nat) (s : Runtime) :
  (n < length (mlfq (g_sched s)))%nat ->
  Forall (Forall (valid_tid (g_threads s))) (mlfq (g_sched s)) ->
  (n <= length (quantum_by_level (g_sched s)))%nat ->
  (age_scan n s = Ok s /\
   forall L, (1 <= L <= n)%nat -> mlfq (g_sched s) !! L = Some [])
  \/
  (exists L t rest up th q,
     (1 <= L <= n)%nat /\
     mlfq (g_sched s) !! L = Some (t :: rest) /\
     (forall L', (L < L' <= n)%nat -> mlfq (g_sched s) !! L' = Some []) /\
     mlfq (g_sched s) !! (L - 1)%nat = Some up /\
     vec_at (g_threads s) t = Ok th /\
     quantum_by_level (g_sched s) !! (L - 1)%nat = Some q /\
     age_scan n s =
       Ok (log "age" t "promote"
             (with_threads
                (<[Z.to_nat t :=
                     set_quantum_budget q (set_mlfq_level (Z.of_nat L - 1) th)]>
                   (g_threads s))
                (with_sched
                   (sched_with_mlfq
                      (<[(L - 1)%nat := up ++ [t]]> (<[L := rest]> (mlfq (g_sched s))))
                      (g_sched s)) s)))).
Proof.
  intros Hn Hvalid Hq. induction n as [|n IH].
  - left. split; [reflexivity | lia].
  - destruct (lookup_lt_is_Some_2 (mlfq (g_sched s)) (S n) Hn) as [qn Hqn].
    assert (Hat : vec_at (mlfq (g_sched s)) (Z.of_nat (S n)) = Ok qn).
    { apply vec_at_Ok. split; [lia|]. by rewrite Nat2Z.id. }
    cbn [age_scan]. rewrite Hat. cbn [mbind res_bind].
    destruct qn as [|t rest].
    + destruct IH as [[He Hall]|(L & t & rest & up & th & q & HL & H1 & H2 & H3 & H4 & H5 & He)];
        [lia | lia | |].
      * left. split; [done|]. intros L HL.
        destruct (decide (L = S n)) as [->|]; [done | apply Hall; lia].
      * right. exists L, t, rest, up, th, q. repeat split; try done; try lia.
        intros L' HL'. destruct (decide (L' = S n)) as [->|]; [done | apply H2; lia].
    + right.
      destruct (lookup_lt_is_Some_2 (mlfq (g_sched s)) n) as [up Hup]; [lia|].
      destruct (lookup_lt_is_Some_2 (quantum_by_level (g_sched s)) n) as [q Hqq]; [lia|].
      assert (Hvt : valid_tid (g_threads s) t).
      { eapply Forall_lookup_1 in Hvalid; [|exact Hqn]. by inversion Hvalid. }
      destruct (vec_at_valid _ _ Hvt) as [th Hth].
      exists (S n), t, rest, up, th, q.
      replace (S n - 1)%nat with n by lia.
      repeat split; try done; try lia.
      rewrite (vec_set_Ok _ _ (t :: rest)) by done. cbn [mbind res_bind].
      rewrite Hth. cbn [mbind res_bind].
      replace (mlfq_level (set_mlfq_level (Z.of_nat (S n) - 1) th)) with (Z.of_nat n)
        by (simpl; lia).
      assert (Hatq : vec_at (quantum_by_level (g_sched s)) (Z.of_nat n) = Ok q).
      { apply vec_at_Ok. split; [lia|]. by rewrite Nat2Z.id. }
      rewrite Hatq. cbn [mbind res_bind].
      rewrite (vec_set_Ok _ _ th) by done. cbn [mbind res_bind].
      replace (Z.of_nat (S n) - 1) with (Z.of_nat n) by lia.
      assert (Hatu : vec_at (<[Z.to_nat (Z.of_nat (S n)) := rest]> (mlfq (g_sched s)))
                       (Z.of_nat n) = Ok up).
      { apply vec_at_Ok. split; [lia|]. rewrite !Nat2Z.id.
        rewrite list_lookup_insert_ne by lia. done. }
      rewrite Hatu. cbn [mbind res_bind].
      rewrite (vec_set_Ok _ _ up) by done. cbn [mbind res_bind].
      rewrite !Nat2Z.id. reflexivity.
Qed.

Lemma maybe_age_idle (now : Z) (s : Runtime) :
  policy (g_sched s) <> MLFQ \/ enable_aging (g_sched s) = false \/
  now - last_age_ms (g_sched s) < aging_interval_ms (g_sched s) ->
  maybe_age now s = Ok s.
Proof.
  intros H. unfold maybe_age.
  destruct (decide (policy (g_sched s) = MLFQ)) as [Hp|Hp].
  - rewrite bool_decide_eq_true_2 by done. simpl.
    destruct (enable_aging (g_sched s)); simpl.
    + destruct (Z.ltb_spec (now - last_age_ms (g_sched s)) (aging_interval_ms (g_sched s)));
        [done|]. destruct H as [?|[?|?]]; [done | done | lia].
    + done.
  - by rewrite bool_decide_eq_false_2 by done.
Qed.


(** ** Who changes a quantum budget *)




Lemma budgets_kept_insert (i : nat) (th th' : Thread) (s : Runtime) :
  g_threads s !! i = Some th -> quantum_budget th' = quantum_budget th ->
  budgets_kept s (with_threads (<[i := th']> (g_threads s)) s).
Proof.
  intros Hi Hq. split; [done|]. intros t _. unfold thread_work_resume, vec_at. simpl.
  destruct (Z.ltb_spec t 0); [done|].
  destruct (decide (i = Z.to_nat t)) as [->|Hne].
  - rewrite list_lookup_insert_eq by (by eapply lookup_lt_Some).
    rewrite Hi. simpl. by rewrite Hq.
  - by rewrite list_lookup_insert_ne.
Qed.

Tactic Notation "res_inv" hyp(H) "as" ident(a) ident(Ha) :=
  apply bind_Ok in H as (a & Ha & H).

Lemma set_thread_inv (u : Z) (th' : Thread) (s s' : Runtime) :
  set_thread u th' s = Ok s' ->
  s' = with_threads (<[Z.to_nat u := th']> (g_threads s)) s /\
  valid_tid (g_threads s) u.
Proof.
  unfold set_thread. intros H. res_inv H as ths Hths. injection H as <-.
  apply vec_set_inv in Hths as [-> Hv]. done.
Qed.

Lemma set_thread_kept (u : Z) (th th' : Thread) (s s' : Runtime) :
  vec_at (g_threads s) u = Ok th -> quantum_budget th' = quantum_budget th ->
  set_thread u th' s = Ok s' -> budgets_kept s s'.
Proof.
  intros Hth Hq [-> _]%set_thread_inv.
  apply vec_at_Ok in Hth as [_ Hth]. by eapply budgets_kept_insert.
Qed.













(** [ensure_context] touches the context of the task and nothing else. *)
Lemma ensure_context_inv (u : Z) (s s0 : Runtime) :
  ensure_context u s = Ok s0 ->
  exists th,
    vec_at (g_threads s) u = Ok th /\
    vec_at (g_threads s0) u =
      Ok (if bool_decide (state th = NEW) then set_cx_made true th else th) /\
    g_sched s0 = g_sched s /\ g_current s0 = g_current s /\ g_log s0 = g_log s /\
    state <$> g_threads s0 = state <$> g_threads s /\
    budgets_kept s s0.
Proof.
  intros H. unfold ensure_context in H. res_inv H as th Hth. exists th.
  split; [done|]. destruct (bool_decide (state th = NEW)).
  - pose proof (set_thread_kept u th (set_cx_made true th) s s0 Hth eq_refl H) as K.
    apply set_thread_inv in H as [-> Hv]. simpl.
    split; [by apply vec_at_insert_eq|]. repeat split; try done; try apply K.
    apply vec_at_Ok in Hth as [_ Hth]. rewrite list_fmap_insert. simpl.
    apply list_insert_id. by rewrite list_lookup_fmap, Hth.
  - injection H as <-. repeat split; done.
Qed.










(** ** Dispatch *)


(** What a dispatch leaves in the budget of the dispatched task. *)
Lemma switch_to_thread_budget (t : Z) (s s' : Runtime) :
  switch_to_thread t s = Ok s' ->
  exists th th',
    vec_at (g_threads s) t = Ok th /\
    vec_at (g_threads s') t = Ok th' /\
    state th' = RUNNING /\ mlfq_level th' = mlfq_level th /\
    g_sched s' = g_sched s /\ g_current s' = t /\
    if bool_decide (policy (g_sched s) = MLFQ)
    then vec_at (quantum_by_level (g_sched s)) (mlfq_level th) = Ok (quantum_budget th')
    else quantum_budget th' = quantum_budget th.
Proof.
  intros H. unfold switch_to_thread in H.
  res_inv H as s0 Hs0. res_inv H as th Hth. res_inv H as q Hq. res_inv H as s2 Hs2.
  destruct (cx_made th); [|done]. injection H as <-.
  destruct (ensure_context_inv _ _ _ Hs0) as (th0 & Hth0 & Hth0' & Hsc & _ & _ & _ & _).
  simpl in *. rewrite Hth0' in Hth. injection Hth as <-.
  apply set_thread_inv in Hs2 as [-> Hv]. simpl.
  eexists th0, _. split; [done|]. split; [by apply vec_at_insert_eq|]. simpl.
  rewrite Hsc in *.
  assert (Hl : mlfq_level (if bool_decide (state th0 = NEW)
                           then set_cx_made true th0 else th0) = mlfq_level th0)
    by (by destruct (bool_decide (state th0 = NEW))).
  assert (Hb : quantum_budget (if bool_decide (state th0 = NEW)
                               then set_cx_made true th0 else th0) = quantum_budget th0)
    by (by destruct (bool_decide (state th0 = NEW))).
  rewrite Hl in *. rewrite Hb in *.
  repeat split; try done.
  destruct (bool_decide (policy (g_sched s) = MLFQ)); [done | by injection Hq].
Qed.


Lemma enqueue_ready_insert (i : nat) (th : Thread) (s : Runtime) :
  enqueue_ready s -> enqueue_ready (with_threads (<[i := th]> (g_threads s)) s).
Proof.
  intros [Hq Hl]. split; [|done]. eapply Forall_impl; [exact Hq|].
  intros x Hx. unfold valid_tid in *. simpl. by rewrite length_insert.
Qed.


(** A [thread_work] call that stays below the quantum returns at once and
    writes nothing but the budget of the caller. *)
Lemma thread_work_returns (units : Z) (s : Runtime) (th : Thread) :
  vec_at (g_threads s) (g_current s) = Ok th ->
  quantum_budget th <= INT_MAX ->
  0 < quantum_budget th - Z.max 1 units ->
  thread_work units s =
    Ok (with_threads
          (<[Z.to_nat (g_current s) :=
               set_quantum_budget (quantum_budget th - Z.max 1 units) th]> (g_threads s)) s,
        WorkReturns (quantum_budget th - Z.max 1 units)).
Proof.
  intros Hth Hmax Hpos.
  unfold thread_work. rewrite Hth. simpl.
  rewrite int_sub_Ok by (unfold in_int, INT_MIN in *; lia). simpl.
  rewrite (set_thread_Ok _ th) by done. simpl.
  destruct (Z.leb_spec (quantum_budget th - Z.max 1 units) 0); [lia | reflexivity].
Qed.

(** * Properties of the runtime *)

(** ** Policy selection at start-up *)

(** The policy in force after the start of [thread_run], for every value of
    the environment and every state: a set [SCHED] decides alone. *)
Lemma thread_run_boot_policy (env : option string) (s : Runtime) :
  g_sched (thread_run_boot env s) =
    match env with
    | None => g_sched s
    | Some v =>
        sched_with_policy
          (if bool_decide (v = "prio" \/ v = "priority") then Priority
           else if bool_decide (v = "mlfq") then MLFQ
           else RoundRobin) (g_sched s)
    end.
Proof.
  unfold thread_run_boot, log, set_policy_from_env. simpl.
  assert (Hdead : negb (bool_decide (policy (g_sched s) = RoundRobin))
                  && negb (bool_decide (policy (g_sched s) = Priority))
                  && negb (bool_decide (policy (g_sched s) = MLFQ)) = false)
    by (destruct (policy (g_sched s)); reflexivity).
  rewrite Hdead. destruct env as [v|]; [|reflexivity].
  destruct (String.eqb_spec v "prio") as [->|H1]; [reflexivity|].
  destruct (String.eqb_spec v "priority") as [->|H2]; [reflexivity|].
  rewrite bool_decide_eq_false_2 by (intros [?|?]; congruence).
  destruct (String.eqb_spec v "mlfq") as [->|H3]; [reflexivity|].
  rewrite bool_decide_eq_false_2 by done. reflexivity.
Qed.

(** C1: the policy chosen with [set_policy] does not survive a set [SCHED].
    After [set_policy MLFQ], starting [thread_run] with [SCHED=fifo] (a value
    that is none of prio, priority, mlfq) leaves the policy RoundRobin, and
    with [SCHED=prio] it leaves Priority; only an unset [SCHED] keeps MLFQ. *)
Theorem thread_run_env_overrides_set_policy :
  let s := set_policy MLFQ (initial_runtime 0) in
  policy (g_sched s) = MLFQ /\
  policy (g_sched (thread_run_boot (Some "fifo") s)) = RoundRobin /\
  policy (g_sched (thread_run_boot (Some "prio") s)) = Priority /\
  policy (g_sched (thread_run_boot None s)) = MLFQ.
Proof. repeat split. Qed.

(** ** Quantum accounting on dispatch *)

(** C2: under RoundRobin a task whose budget [thread_work] has brought down
    to 0 is dispatched again with that budget.  Task "A" is running (its
    context is built) with 8 units left; it spends them in one
    [thread_work 8], is suspended and requeued, and the next iteration of the
    run loop makes it RUNNING with [quantum_budget = 0], so that its next
    [thread_work 1] suspends at once with a budget of -1. *)
Theorem dispatch_keeps_exhausted_budget :
  exists th0 s1 s2 th s3 th3,
    vec_at (g_threads rr_running) (g_current rr_running) = Ok th0 /\
    state th0 = RUNNING /\ cx_made th0 = true /\ quantum_budget th0 = 8 /\
    thread_work 8 rr_running = Ok (s1, WorkSuspends) /\
    schedule_once (2, 2) s1 = Ok (s2, Some 0) /\
    policy (g_sched s2) = RoundRobin /\
    vec_at (g_threads s2) 0 = Ok th /\
    state th = RUNNING /\
    quantum_budget th = 0 /\
    thread_work 1 s2 = Ok (s3, WorkSuspends) /\
    vec_at (g_threads s3) 0 = Ok th3 /\
    quantum_budget th3 = -1.
Proof.
  do 6 eexists.
  split; [vm_compute; reflexivity|].
  split; [reflexivity|].
  split; [reflexivity|].
  split; [reflexivity|].
  split; [vm_compute; reflexivity|].
  split; [vm_compute; reflexivity|].
  split; [reflexivity|].
  split; [vm_compute; reflexivity|].
  split; [reflexivity|].
  split; [reflexivity|].
  split; [vm_compute; reflexivity|].
  split; [vm_compute; reflexivity|].
  reflexivity.
Qed.

(** ** The value returned by [thread_work] *)




(** ** Yield without a current task *)

(** C4: with [g_current = -1] (no task has been dispatched) [thread_yield]
    skips the requeue but still calls [platform_yield_to_scheduler], which
    indexes the task table at [-1]: the call is not a defined execution, let
    alone a return without effect. *)
Theorem thread_yield_without_current_task (s : Runtime) :
  thread_yield (with_current (-1) s) = Fault (OutOfRange (-1)).
Proof. reflexivity. Qed.

(** ** Priority enqueue *)

(** C5: under the Priority policy [enqueue] puts the incoming tid in front of
    the first queued tid of strictly lower [base_priority] and at the tail if
    there is none; and after any sequence of such enqueues into the empty
    queue, the queue is ordered by priority and the tids of each priority
    appear in the order in which they were enqueued. *)
Theorem enqueue_prio_order :
  (forall s t,
     policy (g_sched s) = Priority ->
     valid_tid (g_threads s) t ->
     Forall (valid_tid (g_threads s)) (rrq (g_sched s)) ->
     exists l1 l2,
       rrq (g_sched s) = l1 ++ l2 /\
       enqueue t s = Ok (with_sched (sched_with_rrq (l1 ++ t :: l2) (g_sched s)) s) /\
       Forall (fun x => prio_of (g_threads s) t <= prio_of (g_threads s) x) l1 /\
       match l2 with
       | [] => True
       | y :: _ => prio_of (g_threads s) y < prio_of (g_threads s) t
       end) /\
  (forall ths ts,
     Forall (valid_tid ths) ts ->
     exists q,
       enqueue_prio_seq ths ts [] = Ok q /\
       prio_sorted ths q /\
       forall p, with_prio ths p q = with_prio ths p ts).
Proof.
  split.
  - intros s t Hp Ht Hq.
    destruct (enqueue_prio_scan_split _ _ _ Ht Hq) as (l1 & l2 & Hsplit & He & Hl1 & Hl2).
    exists l1, l2. split; [done|]. split; [|done].
    unfold enqueue, enqueue_prio. rewrite Hp, He. reflexivity.
  - intros ths ts Hts.
    destruct (enqueue_prio_seq_fifo ths ts [] Hts) as (q & He & Hs & Hf);
      [constructor | exact I |].
    exists q. repeat split; [done..|]. intros p. by rewrite Hf.
Qed.

Lemma enqueue_prio_order_witness :
  (exists l1 l2,
     [1; 0] = l1 ++ l2 /\
     enqueue 2 prio_two_queued =
       Ok (with_sched (sched_with_rrq (l1 ++ 2 :: l2) (g_sched prio_two_queued))
                      prio_two_queued)) /\
  (exists q,
     enqueue_prio_seq three_tasks [0; 1; 2] [] = Ok q /\
     with_prio three_tasks 5 q = [0; 2]).
Proof.
  split.
  - destruct (proj1 enqueue_prio_order prio_two_queued 2) as (l1 & l2 & Hq & He & _).
    + reflexivity.
    + unfold valid_tid; simpl; lia.
    + repeat constructor; unfold valid_tid; simpl; lia.
    + exists l1, l2. split; [exact Hq | exact He].
  - destruct (proj2 enqueue_prio_order three_tasks [0; 1; 2]) as (q & He & _ & Hf).
    + repeat constructor; unfold valid_tid; simpl; lia.
    + exists q. split; [exact He|]. rewrite Hf. reflexivity.
Defined.

(** ** Aging *)

(** C6: when the aging tick fires ([policy = MLFQ], aging enabled, interval
    elapsed) on well-formed MLFQ queues, [maybe_age] sets [last_age_ms] to
    [now] and either all levels above 0 are empty and nothing else changes,
    or, for the highest-index non-empty level [L >= 1], the head [t] of that
    level is removed from it, gets level [L - 1] and budget
    [quantum_by_level[L - 1]], is appended to level [L - 1], one [age] record
    is logged, and nothing else changes. *)
Theorem maybe_age_promotes_one (now : Z) (s : Runtime) :
  policy (g_sched s) = MLFQ ->
  enable_aging (g_sched s) = true ->
  aging_interval_ms (g_sched s) <= now - last_age_ms (g_sched s) ->
  1 <= levels (g_sched s) ->
  Z.of_nat (length (mlfq (g_sched s))) = levels (g_sched s) ->
  levels (g_sched s) <= Z.of_nat (length (quantum_by_level (g_sched s))) ->
  Forall (Forall (valid_tid (g_threads s))) (mlfq (g_sched s)) ->
  exists s',
    maybe_age now s = Ok s' /\
    last_age_ms (g_sched s') = now /\
    let sc1 := sched_with_last_age now (g_sched s) in
    ((forall L, (1 <= L < length (mlfq (g_sched s)))%nat ->
                mlfq (g_sched s) !! L = Some []) /\
     s' = with_sched sc1 s)
    \/
    (exists L t rest up th q,
       (1 <= L < length (mlfq (g_sched s)))%nat /\
       mlfq (g_sched s) !! L = Some (t :: rest) /\
       (forall L', (L < L' < length (mlfq (g_sched s)))%nat ->
                   mlfq (g_sched s) !! L' = Some []) /\
       mlfq (g_sched s) !! (L - 1)%nat = Some up /\
       vec_at (g_threads s) t = Ok th /\
       quantum_by_level (g_sched s) !! (L - 1)%nat = Some q /\
       s' = mkRuntime
              (sched_with_mlfq
                 (<[(L - 1)%nat := up ++ [t]]> (<[L := rest]> (mlfq (g_sched s)))) sc1)
              (<[Z.to_nat t := set_quantum_budget q (set_mlfq_level (Z.of_nat L - 1) th)]>
                 (g_threads s))
              (g_current s) (g_next_tid s) (g_resources s) (g_tls s)
              (g_log s ++ [mkLog "age" t "promote"])).
Proof.
  intros Hp Hen Hdue Hl Hm Hq Hvalid.
  unfold maybe_age. rewrite bool_decide_eq_true_2 by done. rewrite Hen. simpl.
  destruct (Z.ltb_spec (now - last_age_ms (g_sched s)) (aging_interval_ms (g_sched s)));
    [lia|].
  destruct (age_scan_spec (Z.to_nat (levels (g_sched s) - 1))
              (with_sched (sched_with_last_age now (g_sched s)) s))
    as [[He Hall]|(L & t & rest & up & th & q & HL & H1 & H2 & H3 & H4 & H5 & He)];
    simpl; try lia; try done.
  - eexists. split; [exact He|]. split; [reflexivity|].
    left. split; [|reflexivity]. intros L HL. apply Hall. lia.
  - eexists. split; [exact He|]. split; [reflexivity|].
    right. exists L, t, rest, up, th, q. simpl in *.
    repeat split; try done; try lia.
    intros L' HL'. apply H2. lia.
Qed.

Lemma maybe_age_promotes_one_witness :
  exists s',
    maybe_age 600 (one_running MLFQ 8 0 [] [[]; []; [1]] [mkThread 1 1 1 READY "B" true 0 2 2])
    = Ok s' /\
    last_age_ms (g_sched s') = 600 /\
    mlfq (g_sched s') = [[]; [1]; []] /\
    vec_at (g_threads s') 1 = Ok (mkThread 1 1 1 READY "B" true 0 4 1) /\
    g_log s' = [mkLog "age" 1 "promote"].
Proof.
  destruct (maybe_age_promotes_one 600
              (one_running MLFQ 8 0 [] [[]; []; [1]] [mkThread 1 1 1 READY "B" true 0 2 2]))
    as (s' & He & Hlast & _).
  - reflexivity.
  - reflexivity.
  - simpl. lia.
  - simpl. lia.
  - reflexivity.
  - simpl. lia.
  - repeat constructor; unfold valid_tid; simpl; lia.
  - exists s'. split; [exact He|]. split; [exact Hlast|].
    pose proof He as He'. vm_compute in He'. injection He' as <-.
    repeat split; reflexivity.
Defined.

(** ** Demotion on quantum expiry *)

(** C7: under MLFQ a [thread_work] call that brings the budget to 0 or below
    logs [qexpire] and leaves the task at level [min (prev + 1) (levels - 1)],
    [prev] being its (valid) level before the call. *)
Theorem qexpire_demotes_one_level (units : Z) (s : Runtime) (th : Thread) :
  policy (g_sched s) = MLFQ ->
  vec_at (g_threads s) (g_current s) = Ok th ->
  in_int (quantum_budget th - Z.max 1 units) ->
  quantum_budget th - Z.max 1 units <= 0 ->
  0 <= mlfq_level th ->
  1 <= levels (g_sched s) <= Z.of_nat (length (quantum_by_level (g_sched s))) ->
  exists s' th',
    thread_work units s = Ok (s', WorkSuspends) /\
    g_log s' = g_log s ++ [mkLog "qexpire" (g_current s) "auto-yield"] /\
    vec_at (g_threads s') (g_current s) = Ok th' /\
    mlfq_level th' = Z.min (mlfq_level th + 1) (levels (g_sched s) - 1).
Proof. apply thread_work_expires_mlfq. Qed.

Lemma qexpire_demotes_one_level_witness :
  exists s' th',
    thread_work 8 (one_running MLFQ 8 0 [] [[]; []; []] []) = Ok (s', WorkSuspends) /\
    vec_at (g_threads s') 0 = Ok th' /\
    mlfq_level th' = 1.
Proof.
  destruct (qexpire_demotes_one_level 8 (one_running MLFQ 8 0 [] [[]; []; []] [])
              (task_A RUNNING 8 0))
    as (s' & th' & Hw & _ & Hth & Hlv).
  - reflexivity.
  - reflexivity.
  - unfold in_int, INT_MIN, INT_MAX. simpl. lia.
  - simpl. lia.
  - simpl. lia.
  - simpl. lia.
  - exists s', th'. split; [exact Hw|]. split; [exact Hth | exact Hlv].
Defined.

(** ** Wait and signal *)

(** [thread_wait] blocks the caller and appends it to the queue of the
    resource, creating the queue if the registry has none. *)
Lemma thread_wait_appends (resource : string) (s : Runtime) (th : Thread) :
  vec_at (g_threads s) (g_current s) = Ok th ->
  (policy (g_sched s) = MLFQ ->
   Z.max (mlfq_level th - 1) 0 < Z.of_nat (length (quantum_by_level (g_sched s)))) ->
  exists s' th',
    thread_wait resource s = Ok s' /\
    g_resources s' =
      <[resource := default [] (g_resources s !! resource) ++ [g_current s]]>
        (g_resources s) /\
    vec_at (g_threads s') (g_current s) = Ok th' /\
    state th' = BLOCKED.
Proof.
  intros Hth Hq. pose proof (vec_at_Ok_valid _ _ _ Hth) as Hv.
  unfold thread_wait. rewrite Hth. cbn [mbind res_bind].
  rewrite (set_thread_Ok _ th) by done. cbn [mbind res_bind].
  destruct (decide (policy (g_sched s) = MLFQ)) as [Hp|Hp].
  - rewrite (bool_decide_eq_true_2 (policy _ = MLFQ)) by done.
    unfold promote_mlfq. simpl. rewrite Hp.
    rewrite vec_at_insert_eq by done. simpl.
    destruct (vec_at_valid (quantum_by_level (g_sched s)) (Z.max (mlfq_level th - 1) 0))
      as [q Hqv]; [specialize (Hq Hp); lia|].
    rewrite Hqv. simpl.
    rewrite (vec_set_Ok _ _ (set_state BLOCKED th)) by (by apply vec_at_insert_eq).
    simpl. unfold platform_yield_to_scheduler. simpl.
    rewrite list_insert_insert_eq. rewrite vec_at_insert_eq by done. simpl.
    eexists _, _. split; [reflexivity|]. simpl.
    split; [reflexivity|]. split; [by apply vec_at_insert_eq | reflexivity].
  - rewrite (bool_decide_eq_false_2 (policy _ = MLFQ)) by done.
    unfold platform_yield_to_scheduler. simpl.
    rewrite vec_at_insert_eq by done. simpl.
    eexists _, _. split; [reflexivity|]. simpl.
    split; [reflexivity|]. split; [by apply vec_at_insert_eq | reflexivity].
Qed.

(** C8: [thread_signal] on a resource that has no queue or an empty queue
    returns the state unchanged (no task, queue or log record is touched, and
    nothing remains for a later [thread_wait]).  With waiters, which
    [thread_wait] queues in arrival order, the head [t] is removed from the
    queue; if it is BLOCKED it becomes READY, enters the ready structure and
    one [signal] record is logged; otherwise nothing else changes.  No other
    task is touched. *)
Theorem thread_signal_wakes_head_or_nothing (resource : string) (s : Runtime) :
  (g_resources s !! resource = None \/ g_resources s !! resource = Some [] ->
   thread_signal resource s = Ok s) /\
  (forall t rest th,
     g_resources s !! resource = Some (t :: rest) ->
     vec_at (g_threads s) t = Ok th -> enqueue_ready s ->
     exists s',
       thread_signal resource s = Ok s' /\
       g_resources s' = <[resource := rest]> (g_resources s) /\
       (forall u, u <> t -> vec_at (g_threads s') u = vec_at (g_threads s) u) /\
       if bool_decide (state th = BLOCKED) then
         (exists th', vec_at (g_threads s') t = Ok th' /\ state th' = READY) /\
         t ∈ ready_tids (g_sched s') /\
         g_log s' = g_log s ++ [mkLog "signal" t resource]
       else
         s' = with_resources (<[resource := rest]> (g_resources s)) s) /\
  (forall th,
     vec_at (g_threads s) (g_current s) = Ok th ->
     (policy (g_sched s) = MLFQ ->
      Z.max (mlfq_level th - 1) 0 < Z.of_nat (length (quantum_by_level (g_sched s)))) ->
     exists s',
       thread_wait resource s = Ok s' /\
       g_resources s' !! resource =
         Some (default [] (g_resources s !! resource) ++ [g_current s])).
Proof.
  split; [|split].
  - unfold thread_signal. intros [-> | ->]; reflexivity.
  - intros t rest th Hr Hth Hready. pose proof (vec_at_Ok_valid _ _ _ Hth) as Hv.
    unfold thread_signal. rewrite Hr. simpl. rewrite Hth. simpl.
    case_bool_decide as Hb.
    + rewrite (set_thread_Ok t th) by done. simpl.
      set (s2 := with_threads _ _).
      destruct (enqueue_Ok t s2 (set_state READY th))
        as (s3 & th' & He & Hin & Hths & Hst & Hlog & Hres & _).
      { destruct Hready as [Hq Hl]. split; [|done].
        eapply Forall_impl; [exact Hq|]. intros x Hx.
        unfold valid_tid in *. subst s2. simpl. by rewrite length_insert. }
      { subst s2. simpl. by apply vec_at_insert_eq. }
      rewrite He. simpl. exists (log "signal" t resource s3). split; [reflexivity|].
      simpl. rewrite Hres, Hlog, Hths. subst s2. simpl.
      split; [reflexivity|]. split.
      * intros u Hu. rewrite list_insert_insert_eq. apply vec_at_insert_ne; lia.
      * split; [|done]. exists th'. split; [|done].
        rewrite list_insert_insert_eq. by apply vec_at_insert_eq.
    + eexists. split; [reflexivity|]. simpl. done.
  - intros th Hth Hq.
    destruct (thread_wait_appends resource s th Hth Hq) as (s' & th' & Hw & Hres & _).
    exists s'. split; [done|]. rewrite Hres. apply lookup_insert_eq.
Qed.

Lemma thread_signal_wakes_head_or_nothing_witness :
  thread_signal "gone" waiting_on_go = Ok waiting_on_go /\
  (exists s',
     thread_signal "go" waiting_on_go = Ok s' /\
     rrq (g_sched s') = [1] /\
     g_log s' = [mkLog "signal" 1 "go"]) /\
  (exists s',
     thread_wait "go" waiting_on_go = Ok s' /\
     g_resources s' !! "go"%string = Some [1; 0]).
Proof.
  split; [|split].
  - apply (proj1 (thread_signal_wakes_head_or_nothing "gone" waiting_on_go)).
    left. reflexivity.
  - destruct (proj1 (proj2 (thread_signal_wakes_head_or_nothing "go" waiting_on_go))
                1 [] (mkThread 1 5 5 BLOCKED "W" true 0 8 0))
      as (s' & Hs & _ & _ & Hb).
    + reflexivity.
    + reflexivity.
    + split; [constructor | simpl; lia].
    + exists s'. split; [exact Hs|].
      pose proof Hs as Hs'. vm_compute in Hs'. injection Hs' as <-.
      split; reflexivity.
  - destruct (proj2 (proj2 (thread_signal_wakes_head_or_nothing "go" waiting_on_go))
                (task_A RUNNING 8 0))
      as (s' & Hw & Hres).
    + reflexivity.
    + simpl. intros Hp. discriminate Hp.
    + exists s'. split; [exact Hw | exact Hres].
Defined.

(** ** Work below the quantum *)

(** C9: a [thread_work] call whose decremented budget stays positive returns
    it at once, without suspending; the state it leaves differs from the
    state before only in the [quantum_budget] of the caller: its [state] and
    [mlfq_level], the other tasks, the scheduler with its queues, the log,
    the registry and the TLS are as before. *)
Theorem thread_work_below_quantum (units : Z) (s : Runtime) (th : Thread) :
  vec_at (g_threads s) (g_current s) = Ok th ->
  quantum_budget th <= INT_MAX ->
  0 < quantum_budget th - Z.max 1 units ->
  let b := quantum_budget th - Z.max 1 units in
  exists s',
    thread_work units s = Ok (s', WorkReturns b) /\
    g_threads s' = <[Z.to_nat (g_current s) := set_quantum_budget b th]> (g_threads s) /\
    vec_at (g_threads s') (g_current s) = Ok (set_quantum_budget b th) /\
    state (set_quantum_budget b th) = state th /\
    mlfq_level (set_quantum_budget b th) = mlfq_level th /\
    (forall u, u <> g_current s -> vec_at (g_threads s') u = vec_at (g_threads s) u) /\
    g_sched s' = g_sched s /\
    g_log s' = g_log s /\
    g_resources s' = g_resources s /\
    g_tls s' = g_tls s /\
    g_current s' = g_current s /\
    g_next_tid s' = g_next_tid s.
Proof.
  intros Hth Hmax Hpos b.
  pose proof (vec_at_Ok_valid _ _ _ Hth) as Hv.
  eexists. split; [by apply (thread_work_returns units s th)|].
  simpl. repeat split; try reflexivity.
  - by apply vec_at_insert_eq.
  - intros u Hu. apply vec_at_insert_ne; lia.
Qed.

Lemma thread_work_below_quantum_witness :
  exists s',
    thread_work 3 (one_running RoundRobin 8 0 [] [[]; []; []] []) = Ok (s', WorkReturns 5) /\
    g_log s' = [].
Proof.
  destruct (thread_work_below_quantum 3 (one_running RoundRobin 8 0 [] [[]; []; []] [])
              (task_A RUNNING 8 0))
    as (s' & H & _ & _ & _ & _ & _ & _ & Hl & _).
  - reflexivity.
  - unfold INT_MAX. simpl. lia.
  - simpl. lia.
  - exists s'. split; [exact H | exact Hl].
Defined.

(** ** Task-local storage *)

Lemma tls_get_set_eq (t : Z) (k : string) (v : Z) (s : Runtime) :
  tls_get_as t k (tls_set_as t k v s) = Some v.
Proof.
  unfold tls_get_as, tls_set_as, tls_get, tls_set. simpl.
  rewrite lookup_insert_eq. apply lookup_insert_eq.
Qed.

Lemma tls_get_set_ne (t t' : Z) (k k' : string) (v : Z) (s : Runtime) :
  (t, k) <> (t', k') ->
  tls_get_as t' k' (tls_set_as t k v s) = tls_get_as t' k' s.
Proof.
  intros Hne. unfold tls_get_as, tls_set_as, tls_get, tls_set. simpl.
  destruct (decide (t = t')) as [->|Ht].
  - rewrite lookup_insert_eq. rewrite lookup_insert_ne by congruence.
    destruct (g_tls s !! t'); [reflexivity | apply lookup_empty].
  - rewrite lookup_insert_ne by done. reflexivity.
Qed.

Lemma tls_run_other (ops : list (Z * string * Z)) (t : Z) (k : string) (s : Runtime) :
  Forall (fun op => (op.1.1, op.1.2) <> (t, k)) ops ->
  tls_get_as t k (tls_run ops s) = tls_get_as t k s.
Proof.
  intros H. revert s. induction H as [|[[t' k'] v'] ops Hop _ IH]; intros s; simpl.
  - reflexivity.
  - rewrite IH. by apply tls_get_set_ne.
Qed.

(** C10: [tls_get key] right after [tls_set key value] returns [value]; it
    still does after any sequence of [tls_set] calls none of which is made by
    the same task on the same key; a key the task never set reads as absent;
    and a [tls_set] of one task changes no value read by another task. *)
Theorem tls_round_trip :
  (forall s k v, tls_get k (tls_set k v s) = Some v) /\
  (forall ops s t k v,
     Forall (fun op => (op.1.1, op.1.2) <> (t, k)) ops ->
     tls_get_as t k (tls_run ops (tls_set_as t k v s)) = Some v) /\
  (forall ops boot t k,
     Forall (fun op => (op.1.1, op.1.2) <> (t, k)) ops ->
     tls_get_as t k (tls_run ops (initial_runtime boot)) = None) /\
  (forall s t t' k k' v,
     t <> t' -> tls_get_as t' k' (tls_set_as t k v s) = tls_get_as t' k' s).
Proof.
  repeat split.
  - intros s k v. unfold tls_get, tls_set. simpl.
    rewrite lookup_insert_eq. apply lookup_insert_eq.
  - intros ops s t k v H. rewrite tls_run_other by done. apply tls_get_set_eq.
  - intros ops boot t k H. rewrite tls_run_other by done. reflexivity.
  - intros s t t' k k' v Hne. apply tls_get_set_ne. congruence.
Qed.

Lemma tls_round_trip_witness :
  tls_get_as 0 "a" (tls_run [(1, "a"%string, 7); (0, "b"%string, 9)]
                            (tls_set_as 0 "a" 5 (initial_runtime 0)))
  = Some 5 /\
  tls_get_as 0 "a" (tls_run [(1, "a"%string, 7); (0, "b"%string, 9)] (initial_runtime 0))
  = None /\
  tls_get_as 1 "a" (tls_set_as 0 "a" 5 (initial_runtime 0))
  = tls_get_as 1 "a" (initial_runtime 0).
Proof.
  split; [|split].
  - apply (proj1 (proj2 tls_round_trip)).
    repeat constructor; simpl; congruence.
  - apply (proj1 (proj2 (proj2 tls_round_trip))).
    repeat constructor; simpl; congruence.
  - apply (proj2 (proj2 (proj2 tls_round_trip))). lia.
Defined.

(** * Further properties of the runtime *)

(** ** Task creation *)

(** X1: [thread_create] returns the size of the table as tid and appends a
    NEW task with that tid, the priority clamped to 1..10, 8 units of budget
    and level 0; tids stay dense, and the tasks already in the table, the
    scheduler and the log are untouched. *)
Theorem thread_create_dense (nm : string) (p : Z) (s : Runtime) :
  tids_dense s ->
  let r := thread_create nm p s in
  r.1 = Z.of_nat (length (g_threads s)) /\
  tids_dense r.2 /\
  (exists th,
     vec_at (g_threads r.2) r.1 = Ok th /\
     tid th = r.1 /\ name th = nm /\ state th = NEW /\
     1 <= base_priority th <= 10 /\
     (p < 1 -> base_priority th = 1) /\
     (10 < p -> base_priority th = 10) /\
     (1 <= p <= 10 -> base_priority th = p) /\
     quantum_budget th = 8 /\ mlfq_level th = 0) /\
  (forall u, valid_tid (g_threads s) u ->
             vec_at (g_threads r.2) u = vec_at (g_threads s) u) /\
  g_sched r.2 = g_sched s /\ g_log r.2 = g_log s /\ g_current r.2 = g_current s.
Proof.
  intros [Hn Hd]. unfold thread_create. simpl.
  split; [done|]. split.
  { split; simpl.
    - rewrite length_app. simpl. lia.
    - intros i th Hi. apply lookup_app_Some in Hi as [Hi|[Hlen Hi]].
      + by apply Hd.
      + destruct (i - length (g_threads s))%nat as [|k] eqn:E; simpl in Hi; [|done].
        injection Hi as <-. simpl. lia. }
  split.
  { eexists. split.
    - apply vec_at_Ok. split; [lia|]. rewrite Hn, Nat2Z.id.
      rewrite lookup_app_r by lia. rewrite Nat.sub_diag. reflexivity.
    - simpl. repeat split; try done;
        destruct (Z.ltb_spec p 1); destruct (Z.ltb_spec 10 p); lia. }
  split; [|done].
  intros u Hu. unfold vec_at. destruct (Z.ltb_spec u 0); [done|].
  rewrite lookup_app_l; [done|]. unfold valid_tid in Hu. lia.
Qed.

Lemma thread_create_dense_witness :
  (thread_create "A" 11 (initial_runtime 0)).1 = 0 /\
  tids_dense (thread_create "A" 11 (initial_runtime 0)).2.
Proof.
  destruct (thread_create_dense "A" 11 (initial_runtime 0)) as (H1 & H2 & _).
  - split; [reflexivity|]. intros i th Hi. destruct i; discriminate Hi.
  - split; [exact H1 | exact H2].
Defined.

(** ** MLFQ configuration *)

Lemma default_quantum_positive (i : nat) : 1 <= default_quantum i.
Proof. unfold default_quantum. lia. Qed.

Lemma default_quanta_positive (n : nat) :
  Forall (fun q => 1 <= q) (default_quantum <$> seq 0 n).
Proof. apply Forall_fmap, Forall_forall. intros i _. apply default_quantum_positive. Qed.

(** The result of [init_mlfq_if_needed], case by case. *)
Lemma init_mlfq_if_needed_cases (sc : Scheduler) :
  0 <= levels sc ->
  init_mlfq_if_needed sc =
    Ok (mkSched (policy sc) (rrq sc)
          (if bool_decide (Z.of_nat (length (mlfq sc)) = levels sc)
           then mlfq sc else replicate (Z.to_nat (levels sc)) [])
          (levels sc)
          (if bool_decide (Z.of_nat (length (quantum_by_level sc)) = levels sc)
           then quantum_by_level sc
           else default_quantum <$> seq 0 (Z.to_nat (levels sc)))
          (enable_aging sc) (aging_interval_ms sc) (last_age_ms sc)).
Proof.
  intros Hl. unfold init_mlfq_if_needed.
  destruct (Z.ltb_spec (levels sc) 0); [lia|].
  destruct sc as [p q m l qs ea ai la]. simpl in *.
  destruct (decide (Z.of_nat (length m) = l)) as [Hm|Hm];
    [rewrite (bool_decide_eq_false_2 (_ ≠ _)) by (intros Hn; by apply Hn);
     rewrite (bool_decide_eq_true_2 (_ = _)) by done
    |rewrite (bool_decide_eq_true_2 (_ ≠ _)) by done;
     rewrite (bool_decide_eq_false_2 (Z.of_nat (length m) = l)) by done]; simpl;
    (destruct (decide (Z.of_nat (length qs) = l)) as [Hq|Hq];
     [rewrite (bool_decide_eq_false_2 (_ ≠ _)) by (intros Hn; by apply Hn);
      rewrite (bool_decide_eq_true_2 (_ = _)) by done
     |rewrite (bool_decide_eq_true_2 (_ ≠ _)) by done;
      rewrite (bool_decide_eq_false_2 (Z.of_nat (length qs) = l)) by done]);
    reflexivity.
Qed.

(** X2: whatever number is passed to [mlfq_set_levels], the level count is
    within 1..8 afterwards, so the next [init_mlfq_if_needed] is defined and
    leaves queues and quanta sized to the level count, with positive quanta
    if they were positive. *)
Theorem mlfq_set_levels_then_init (n : Z) (s : Runtime) :
  exists sc,
    init_mlfq_if_needed (g_sched (mlfq_set_levels n s)) = Ok sc /\
    levels sc = (if n <? 1 then 1 else if 8 <? n then 8 else n) /\
    1 <= levels sc <= 8 /\
    mlfq_sized sc /\
    policy sc = policy (g_sched s) /\ rrq sc = rrq (g_sched s) /\
    (quanta_positive (g_sched s) -> quanta_positive sc).
Proof.
  set (l := if n <? 1 then 1 else if 8 <? n then 8 else n).
  assert (Hl : 1 <= l <= 8)
    by (subst l; destruct (Z.ltb_spec n 1); destruct (Z.ltb_spec 8 n); lia).
  eexists. split; [apply init_mlfq_if_needed_cases; simpl; fold l; lia|].
  simpl. fold l. split; [done|]. split; [done|]. split; [|split; [done|split; [done|]]].
  - split; simpl; case_bool_decide; try done;
      rewrite ?length_replicate, ?length_fmap, ?length_seq; lia.
  - unfold quanta_positive. simpl. intros Hq.
    case_bool_decide; [done | apply default_quanta_positive].
Qed.

Lemma mlfq_set_levels_then_init_witness :
  exists sc,
    init_mlfq_if_needed (g_sched (mlfq_set_levels 9 (initial_runtime 0))) = Ok sc /\
    levels sc = 8 /\
    quantum_by_level sc = [8; 4; 2; 1; 1; 1; 1; 1].
Proof.
  destruct (mlfq_set_levels_then_init 9 (initial_runtime 0)) as (sc & Hi & Hl & _).
  exists sc. split; [exact Hi|]. split; [exact Hl|].
  pose proof Hi as Hi'. vm_compute in Hi'. injection Hi' as <-. reflexivity.
Defined.

Lemma int_add_Ok (a b : Z) : in_int (a + b) -> int_add a b = Ok (a + b).
Proof.
  unfold in_int, int_add. intros [H1 H2].
  destruct (Z.leb_spec INT_MIN (a + b)); [|lia].
  destruct (Z.leb_spec (a + b) INT_MAX); [done | lia].
Qed.

Lemma mlfq_set_quantum_by_level_cases (level q : Z) (s : Runtime) :
  let qs := quantum_by_level (g_sched s) in
  (level < 0 -> mlfq_set_quantum_by_level level q s = Ok s) /\
  (0 <= level < INT_MAX ->
   exists s',
     mlfq_set_quantum_by_level level q s = Ok s' /\
     let qs' := quantum_by_level (g_sched s') in
     qs' !! Z.to_nat level = Some (Z.max 1 q) /\
     length qs' = Nat.max (length qs) (S (Z.to_nat level)) /\
     (forall i, i <> Z.to_nat level -> (i < length qs)%nat -> qs' !! i = qs !! i) /\
     (forall i, (length qs <= i < Z.to_nat level)%nat -> qs' !! i = Some 2) /\
     (quanta_positive (g_sched s) -> quanta_positive (g_sched s')) /\
     s' = with_sched (sched_with_quanta qs' (g_sched s)) s) /\
  (INT_MAX <= level -> Z.of_nat (length qs) <= level ->
   mlfq_set_quantum_by_level level q s = Fault SignedOverflow).
Proof.
  intros qs. unfold mlfq_set_quantum_by_level. fold qs.
  split; [|split].
  - intros Hneg. by destruct (Z.ltb_spec level 0); [|lia].
  - intros Hlv. destruct (Z.ltb_spec level 0) as [|_]; [lia|].
    set (qs1 := if Z.of_nat (length qs) <=? level
                then qs ++ replicate (Z.to_nat (level + 1) - length qs)%nat 2 else qs).
    assert (Hgrow : (if Z.of_nat (length qs) <=? level
                     then n ← int_add level 1;
                          Ok (qs ++ replicate (Z.to_nat n - length qs)%nat 2)
                     else Ok qs) = Ok qs1).
    { subst qs1. destruct (Z.of_nat (length qs) <=? level); [|done].
      rewrite int_add_Ok; [done|]. unfold in_int, INT_MIN, INT_MAX in *. lia. }
    rewrite Hgrow. cbn [mbind res_bind]. eexists. split; [reflexivity|]. simpl.
    assert (Hlen1 : length qs1 = Nat.max (length qs) (S (Z.to_nat level))).
    { subst qs1. destruct (Z.leb_spec (Z.of_nat (length qs)) level).
      - rewrite length_app, length_replicate. lia.
      - lia. }
    assert (Hold : forall i, (i < length qs)%nat -> qs1 !! i = qs !! i).
    { intros i Hi. subst qs1. destruct (Z.leb_spec (Z.of_nat (length qs)) level); [|done].
      by rewrite lookup_app_l. }
    split; [apply list_lookup_insert_eq; lia|].
    split; [by rewrite length_insert|].
    split; [intros i Hne Hi; rewrite list_lookup_insert_ne by done; by apply Hold|].
    split.
    { intros i Hi. rewrite list_lookup_insert_ne by lia. subst qs1.
      destruct (Z.leb_spec (Z.of_nat (length qs)) level); [|lia].
      rewrite lookup_app_r by lia. apply lookup_replicate_2. lia. }
    split; [|done].
    unfold quanta_positive. simpl. fold qs. intros Hq.
    apply Forall_insert; [|lia]. subst qs1.
    destruct (Z.leb_spec (Z.of_nat (length qs)) level); [|done].
    apply Forall_app. split; [done|]. apply Forall_replicate. lia.
  - intros Hmax Hlen. destruct (Z.ltb_spec level 0) as [|_];
      [unfold INT_MAX in Hmax; lia|].
    destruct (Z.leb_spec (Z.of_nat (length qs)) level); [|lia].
    unfold int_add.
    destruct (Z.leb_spec (level + 1) INT_MAX) as [Hle|_]; [lia|].
    by rewrite andb_false_r.
Qed.

(** X3: [mlfq_set_quantum_by_level] ignores a negative level; at a level
    below [INT_MAX] it stores [max 1 quantum_units] at the level, growing the
    vector with 2s if it is too short, keeps the other entries, and keeps all
    quanta positive; at the level [INT_MAX] the size [level+1] of the grown
    vector overflows [int] and the call is not a defined execution. *)
Theorem mlfq_set_quantum_by_level_entry (level q : Z) (s : Runtime) :
  let qs := quantum_by_level (g_sched s) in
  (level < 0 -> mlfq_set_quantum_by_level level q s = Ok s) /\
  (0 <= level < INT_MAX ->
   exists s',
     mlfq_set_quantum_by_level level q s = Ok s' /\
     let qs' := quantum_by_level (g_sched s') in
     qs' !! Z.to_nat level = Some (Z.max 1 q) /\
     length qs' = Nat.max (length qs) (S (Z.to_nat level)) /\
     (forall i, i <> Z.to_nat level -> (i < length qs)%nat -> qs' !! i = qs !! i) /\
     (forall i, (length qs <= i < Z.to_nat level)%nat -> qs' !! i = Some 2) /\
     (quanta_positive (g_sched s) -> quanta_positive (g_sched s')) /\
     s' = with_sched (sched_with_quanta qs' (g_sched s)) s) /\
  (INT_MAX <= level -> Z.of_nat (length qs) <= level ->
   mlfq_set_quantum_by_level level q s = Fault SignedOverflow).
Proof. apply mlfq_set_quantum_by_level_cases. Qed.

Lemma mlfq_set_quantum_by_level_entry_witness :
  (exists s',
     mlfq_set_quantum_by_level 4 0 (initial_runtime 0) = Ok s' /\
     quantum_by_level (g_sched s') !! 4%nat = Some 1 /\
     quantum_by_level (g_sched s') !! 3%nat = Some 2) /\
  mlfq_set_quantum_by_level (-1) 5 (initial_runtime 0) = Ok (initial_runtime 0) /\
  mlfq_set_quantum_by_level INT_MAX 5 (initial_runtime 0) = Fault SignedOverflow.
Proof.
  destruct (mlfq_set_quantum_by_level_entry 4 0 (initial_runtime 0)) as (_ & H & _).
  destruct (H ltac:(unfold INT_MAX; lia)) as (s' & Hs' & H1 & _ & _ & H2 & _).
  split; [exists s'; split; [exact Hs'|]; split; [exact H1|];
          apply (H2 3%nat); simpl; lia|].
  split.
  - apply (proj1 (mlfq_set_quantum_by_level_entry (-1) 5 (initial_runtime 0))). lia.
  - apply (proj2 (proj2 (mlfq_set_quantum_by_level_entry INT_MAX 5 (initial_runtime 0)))).
    + lia.
    + simpl. unfold INT_MAX. lia.
Defined.

(** X4: [init_mlfq_if_needed] sizes queues and quanta to the level count, is
    idempotent, changes nothing when they are sized already, and keeps
    positive quanta positive. *)
Theorem init_mlfq_if_needed_stable (sc : Scheduler) :
  0 <= levels sc ->
  exists sc1,
    init_mlfq_if_needed sc = Ok sc1 /\
    mlfq_sized sc1 /\
    init_mlfq_if_needed sc1 = Ok sc1 /\
    (mlfq_sized sc -> sc1 = sc) /\
    (quanta_positive sc -> quanta_positive sc1).
Proof.
  intros Hl. eexists. split; [by apply init_mlfq_if_needed_cases|].
  set (sc1 := mkSched _ _ _ _ _ _ _ _).
  assert (Hs : mlfq_sized sc1).
  { split; subst sc1; simpl; case_bool_decide; try done;
      rewrite ?length_replicate, ?length_fmap, ?length_seq; lia. }
  split; [exact Hs|]. split.
  - rewrite init_mlfq_if_needed_cases by done. destruct Hs as [Hm Hq].
    rewrite (bool_decide_eq_true_2 _ Hm), (bool_decide_eq_true_2 _ Hq).
    reflexivity.
  - split.
    + intros [Hm Hq]. subst sc1.
      rewrite (bool_decide_eq_true_2 _ Hm), (bool_decide_eq_true_2 _ Hq).
      by destruct sc.
    + unfold quanta_positive. subst sc1. simpl. intros Hq.
      destruct (bool_decide (Z.of_nat (length (quantum_by_level sc)) = levels sc));
        [done | apply default_quanta_positive].
Qed.

Lemma init_mlfq_if_needed_stable_witness :
  exists sc1,
    init_mlfq_if_needed (default_sched 0) = Ok sc1 /\
    init_mlfq_if_needed sc1 = Ok sc1 /\ mlfq sc1 = [[]; []; []].
Proof.
  destruct (init_mlfq_if_needed_stable (default_sched 0)) as (sc1 & Hi & _ & Hi' & _).
  - simpl. lia.
  - exists sc1. split; [exact Hi|]. split; [exact Hi'|].
    pose proof Hi as Hc. vm_compute in Hc. injection Hc as <-. reflexivity.
Defined.

(** X5: when the number of queues differs from the level count
    [init_mlfq_if_needed] empties every queue (the queued tids are dropped),
    and when the number of quanta differs it replaces all of them by the
    defaults 8, 4, 2, 1, ...: in particular a quantum set with
    [mlfq_set_quantum_by_level] at a level beyond the level count (and below
    [INT_MAX]), and every quantum set before it, is gone after the next
    initialisation. *)
Theorem init_mlfq_if_needed_resets (sc : Scheduler) :
  0 <= levels sc ->
  exists sc1,
    init_mlfq_if_needed sc = Ok sc1 /\
    (Z.of_nat (length (mlfq sc)) <> levels sc ->
     mlfq sc1 = replicate (Z.to_nat (levels sc)) [] /\ concat (mlfq sc1) = []) /\
    (Z.of_nat (length (quantum_by_level sc)) <> levels sc ->
     quantum_by_level sc1 = default_quantum <$> seq 0 (Z.to_nat (levels sc))) /\
    (forall level q s,
       g_sched s = sc -> levels sc <= level < INT_MAX ->
       exists s' sc2,
         mlfq_set_quantum_by_level level q s = Ok s' /\
         quantum_by_level (g_sched s') !! Z.to_nat level = Some (Z.max 1 q) /\
         init_mlfq_if_needed (g_sched s') = Ok sc2 /\
         quantum_by_level sc2 = default_quantum <$> seq 0 (Z.to_nat (levels sc))).
Proof.
  intros Hl. eexists. split; [by apply init_mlfq_if_needed_cases|]. simpl.
  split; [|split].
  - intros Hm. rewrite (bool_decide_eq_false_2 _ Hm). split; [done|].
    generalize (Z.to_nat (levels sc)).
    intros n. induction n as [|n IH]; [done | exact IH].
  - intros Hq. by rewrite (bool_decide_eq_false_2 _ Hq).
  - intros level q s <- Hlv.
    destruct (mlfq_set_quantum_by_level_cases level q s) as (_ & H & _).
    destruct (H ltac:(lia)) as (s' & Hs' & Hat & Hlen & _ & _ & _ & Heq).
    cbv zeta in Hat, Hlen, Heq.
    assert (Hlv' : levels (g_sched s') = levels (g_sched s)) by (by rewrite Heq).
    exists s'. eexists. split; [exact Hs'|]. split; [exact Hat|].
    split; [apply init_mlfq_if_needed_cases; lia|]. simpl.
    rewrite Hlv'. rewrite bool_decide_eq_false_2; [done | lia].
Qed.

Lemma init_mlfq_if_needed_resets_witness :
  exists s1 s2 sc2,
    mlfq_set_quantum_by_level 0 5 (initial_runtime 0) = Ok s1 /\
    mlfq_set_quantum_by_level 3 7 s1 = Ok s2 /\
    quantum_by_level (g_sched s2) = [5; 4; 2; 7] /\
    init_mlfq_if_needed (g_sched s2) = Ok sc2 /\
    quantum_by_level sc2 = [8; 4; 2].
Proof.
  destruct (init_mlfq_if_needed_resets
              (sched_with_quanta [5; 4; 2] (default_sched 0)))
    as (sc1 & _ & _ & _ & H).
  - simpl. lia.
  - destruct (H 3 7 (with_sched (sched_with_quanta [5; 4; 2] (default_sched 0))
                                (initial_runtime 0)))
      as (s2 & sc2 & Hs2 & _ & Hi & Hq).
    + reflexivity.
    + simpl. unfold INT_MAX. lia.
    + exists (with_sched (sched_with_quanta [5; 4; 2] (default_sched 0))
                         (initial_runtime 0)), s2, sc2.
      split; [reflexivity|]. split; [exact Hs2|].
      split; [|split; [exact Hi | exact Hq]].
      pose proof Hs2 as Hc. vm_compute in Hc. injection Hc as <-. reflexivity.
Defined.

(** ** Taking tasks out of the ready structure *)

Lemma init_mlfq_if_needed_sized (sc : Scheduler) :
  mlfq_sized sc -> init_mlfq_if_needed sc = Ok sc.
Proof.
  intros [Hm Hq]. rewrite init_mlfq_if_needed_cases by lia.
  rewrite (bool_decide_eq_true_2 _ Hm), (bool_decide_eq_true_2 _ Hq).
  by destruct sc.
Qed.

(** The upward scan of [pop] stops at the first non-empty level. *)
Lemma pop_scan_spec (n lvl : nat) (m : list (list Z)) :
  (lvl + n = length m)%nat ->
  (pop_scan n (Z.of_nat lvl) m = Ok (-1, m) /\
   forall L, (lvl <= L < length m)%nat -> m !! L = Some [])
  \/
  (exists L t rest,
     (lvl <= L)%nat /\ m !! L = Some (t :: rest) /\
     (forall L', (lvl <= L' < L)%nat -> m !! L' = Some []) /\
     pop_scan n (Z.of_nat lvl) m = Ok (t, <[L := rest]> m)).
Proof.
  revert lvl. induction n as [|n IH]; intros lvl Hlen.
  - left. split; [reflexivity | lia].
  - destruct (lookup_lt_is_Some_2 m lvl) as [q Hq]; [lia|].
    assert (Hat : vec_at m (Z.of_nat lvl) = Ok q).
    { apply vec_at_Ok. split; [lia|]. by rewrite Nat2Z.id. }
    cbn [pop_scan]. rewrite Hat. cbn [mbind res_bind].
    destruct q as [|t rest].
    + replace (Z.of_nat lvl + 1) with (Z.of_nat (S lvl)) by lia.
      destruct (IH (S lvl)) as [[He Hall]|(L & t & rest & HL & H1 & H2 & He)]; [lia| |].
      * left. split; [done|]. intros L HL.
        destruct (decide (L = lvl)) as [->|]; [done | apply Hall; lia].
      * right. exists L, t, rest. split; [lia|]. split; [done|]. split; [|done].
        intros L' HL'. destruct (decide (L' = lvl)) as [->|]; [done | apply H2; lia].
    + right. exists lvl, t, rest. split; [lia|]. split; [done|]. split; [lia|].
      rewrite (vec_set_Ok _ _ (t :: rest)) by done. cbn [mbind res_bind].
      by rewrite Nat2Z.id.
Qed.

Lemma concat_all_nil (m : list (list Z)) :
  (forall L, (L < length m)%nat -> m !! L = Some []) -> concat m = [].
Proof.
  induction m as [|q m IH]; intros H; [done|]. simpl.
  pose proof (H 0%nat ltac:(simpl; lia)) as H0. simpl in H0. injection H0 as ->.
  apply IH. intros L HL. apply (H (S L)). simpl. lia.
Qed.

Lemma concat_remove_head (m : list (list Z)) (L : nat) (t : Z) (rest : list Z) :
  m !! L = Some (t :: rest) ->
  concat m ≡ₚ t :: concat (<[L := rest]> m).
Proof.
  intros HL. rewrite insert_take_drop by (by eapply lookup_lt_Some).
  rewrite <- (take_drop_middle m L (t :: rest)) at 1 by done.
  rewrite !concat_app. simpl. by rewrite <- Permutation_middle.
Qed.

Lemma pop_mlfq_cases (sc : Scheduler) :
  policy sc = MLFQ -> mlfq_sized sc ->
  (pop sc = Ok (-1, sc) /\ concat (mlfq sc) = [])
  \/
  (exists L t rest,
     mlfq sc !! L = Some (t :: rest) /\
     (forall L', (L' < L)%nat -> mlfq sc !! L' = Some []) /\
     pop sc = Ok (t, sched_with_mlfq (<[L := rest]> (mlfq sc)) sc)).
Proof.
  intros Hp Hs. unfold pop. rewrite Hp, (init_mlfq_if_needed_sized _ Hs).
  cbn [mbind res_bind]. destruct Hs as [Hm _].
  destruct (pop_scan_spec (Z.to_nat (levels sc)) 0 (mlfq sc))
    as [[He Hall]|(L & t & rest & _ & H1 & H2 & He)]; [lia| |].
  - left. change (Z.of_nat 0) with 0 in He. rewrite He. simpl.
    split; [by destruct sc|]. apply concat_all_nil. intros L HL. apply Hall. lia.
  - right. exists L, t, rest. split; [done|]. split; [intros; apply H2; lia|].
    change (Z.of_nat 0) with 0 in He. by rewrite He.
Qed.

(** X6: under MLFQ, with queues sized to the level count, [pop] takes the
    head of the lowest-index non-empty level and leaves the other levels
    alone; when every level is empty it returns -1 and changes nothing. *)
Theorem pop_mlfq_first_nonempty (sc : Scheduler) :
  policy sc = MLFQ -> mlfq_sized sc ->
  (pop sc = Ok (-1, sc) /\ concat (mlfq sc) = [])
  \/
  (exists L t rest,
     mlfq sc !! L = Some (t :: rest) /\
     (forall L', (L' < L)%nat -> mlfq sc !! L' = Some []) /\
     pop sc = Ok (t, sched_with_mlfq (<[L := rest]> (mlfq sc)) sc)).
Proof. apply pop_mlfq_cases. Qed.

Lemma pop_mlfq_first_nonempty_witness :
  pop (mkSched MLFQ [] [[]; [4; 5]; [6]] 3 [8; 4; 2] true 500 0)
  = Ok (4, mkSched MLFQ [] [[]; [5]; [6]] 3 [8; 4; 2] true 500 0).
Proof.
  destruct (pop_mlfq_first_nonempty (mkSched MLFQ [] [[]; [4; 5]; [6]] 3 [8; 4; 2] true 500 0))
    as [[_ He]|(L & t & rest & H1 & H2 & He)].
  - reflexivity.
  - split; reflexivity.
  - discriminate He.
  - rewrite He. destruct L as [|[|[|L]]]; simpl in H1; try discriminate H1.
    + injection H1 as <- <-. reflexivity.
    + pose proof (H2 1%nat ltac:(lia)) as H. discriminate H.
Defined.

(** X7: [empty] answers true exactly when the ready structure of the active
    discipline holds no tid, and after the answer false [pop] is defined and
    removes exactly one of the tids held (so the [pop] of [schedule_once]
    never reads the front of an empty queue). *)
Theorem pop_after_empty_check (sc : Scheduler) :
  (policy sc = MLFQ -> mlfq_sized sc) ->
  (empty sc = true <-> ready_tids sc = []) /\
  (empty sc = false ->
   exists t sc',
     pop sc = Ok (t, sc') /\
     ready_tids sc ≡ₚ t :: ready_tids sc' /\
     policy sc' = policy sc).
Proof.
  intros Hs.
  assert (Hnil : forall m : list (list Z),
            forallb (fun q : list Z => bool_decide (q = [])) m = true <-> concat m = []).
  { induction m as [|q m IH]; simpl; [done|].
    rewrite andb_true_iff, IH, bool_decide_eq_true. split.
    - intros [-> ->]. done.
    - intros H. by apply app_eq_nil in H. }
  assert (Hrr : policy sc <> MLFQ ->
            (empty sc = true <-> rrq sc = []) /\ ready_tids sc = rrq sc).
  { intros Hp. unfold empty, ready_tids.
    destruct (policy sc); try done; by rewrite bool_decide_eq_true. }
  split.
  - destruct (decide (policy sc = MLFQ)) as [Hp|Hp].
    + unfold empty, ready_tids. rewrite Hp. apply Hnil.
    + destruct (Hrr Hp) as [H1 ->]. exact H1.
  - intros He. destruct (decide (policy sc = MLFQ)) as [Hp|Hp].
    + destruct (pop_mlfq_cases sc Hp (Hs Hp))
        as [[_ Hc]|(L & t & rest & H1 & _ & Hpop)].
      * exfalso. unfold empty in He. rewrite Hp in He.
        apply Hnil in Hc. congruence.
      * exists t, (sched_with_mlfq (<[L := rest]> (mlfq sc)) sc).
        split; [done|]. unfold ready_tids. simpl. rewrite Hp.
        split; [by apply concat_remove_head | done].
    + destruct (Hrr Hp) as [H1 H2]. rewrite H2.
      destruct (rrq sc) as [|t q] eqn:Hq; [by rewrite (proj2 H1) in He|].
      exists t, (sched_with_rrq q sc). unfold pop, ready_tids. simpl.
      rewrite Hq. destruct (policy sc); done.
Qed.

Lemma pop_after_empty_check_witness :
  empty (mkSched MLFQ [] [[]; [4; 5]; [6]] 3 [8; 4; 2] true 500 0) = false /\
  exists sc',
    pop (mkSched MLFQ [] [[]; [4; 5]; [6]] 3 [8; 4; 2] true 500 0) = Ok (4, sc').
Proof.
  split; [reflexivity|].
  destruct (proj2 (pop_after_empty_check
                     (mkSched MLFQ [] [[]; [4; 5]; [6]] 3 [8; 4; 2] true 500 0)
                     (fun _ => conj eq_refl eq_refl)) eq_refl)
    as (t & sc' & Hp & _).
  exists sc'. pose proof Hp as Hp'. vm_compute in Hp'. injection Hp' as <- _. exact Hp.
Defined.

(** ** Dispatch order of the single queue *)

Lemma enqueue_seq_rr (ts : list Z) (s : Runtime) :
  policy (g_sched s) = RoundRobin ->
  enqueue_seq ts s = Ok (with_sched (sched_with_rrq (rrq (g_sched s) ++ ts) (g_sched s)) s).
Proof.
  revert s. induction ts as [|t ts IH]; intros s Hp; simpl.
  - rewrite app_nil_r. by destruct s as [[] ? ? ? ? ? ?].
  - unfold enqueue. rewrite Hp. cbn [mbind res_bind].
    rewrite IH by done. simpl. by rewrite <- app_assoc.
Qed.

Lemma pop_n_single_queue (sc : Scheduler) :
  policy sc <> MLFQ ->
  pop_n (length (rrq sc)) sc = Ok (rrq sc, sched_with_rrq [] sc).
Proof.
  intros Hp. remember (rrq sc) as q eqn:Hq. revert sc Hp Hq.
  induction q as [|t q IH]; intros sc Hp Hq; simpl.
  - rewrite Hq. by destruct sc.
  - unfold pop. rewrite <- Hq.
    assert (Hpop : match policy sc with
                   | MLFQ =>
                       sc1 ← init_mlfq_if_needed sc;
                       r ← pop_scan (Z.to_nat (levels sc1)) 0 (mlfq sc1);
                       Ok (r.1, sched_with_mlfq r.2 sc1)
                   | _ => Ok (t, sched_with_rrq q sc)
                   end = Ok (t, sched_with_rrq q sc))
      by (destruct (policy sc); done).
    rewrite Hpop. cbn [mbind res_bind]. simpl.
    rewrite (IH (sched_with_rrq q sc)) by done. reflexivity.
Qed.

(** X8: the single queue under RoundRobin is first in, first out: after any
    sequence of enqueues, as many pops as there are queued tids return the
    tids queued before followed by the enqueued ones, in order, and enqueue
    touches no task record. *)
Theorem rr_fifo (ts : list Z) (s : Runtime) :
  policy (g_sched s) = RoundRobin ->
  exists s',
    enqueue_seq ts s = Ok s' /\
    g_threads s' = g_threads s /\
    rrq (g_sched s') = rrq (g_sched s) ++ ts /\
    pop_n (length (rrq (g_sched s) ++ ts)) (g_sched s')
    = Ok (rrq (g_sched s) ++ ts, sched_with_rrq [] (g_sched s)).
Proof.
  intros Hp. eexists. split; [by apply enqueue_seq_rr|]. simpl.
  split; [done|]. split; [done|].
  set (sc' := sched_with_rrq (rrq (g_sched s) ++ ts) (g_sched s)).
  change (rrq (g_sched s) ++ ts) with (rrq sc') at 1 2.
  rewrite pop_n_single_queue by (subst sc'; simpl; congruence).
  reflexivity.
Qed.

Lemma rr_fifo_witness :
  exists s',
    enqueue_seq [2; 0; 1] (one_running RoundRobin 8 0 [5] [] []) = Ok s' /\
    pop_n 4 (g_sched s') = Ok ([5; 2; 0; 1], g_sched (one_running RoundRobin 8 0 [] [] [])).
Proof.
  destruct (rr_fifo [2; 0; 1] (one_running RoundRobin 8 0 [5] [] [])) as (s' & He & _ & _ & Hp).
  - reflexivity.
  - exists s'. split; [exact He | exact Hp].
Defined.

Lemma enqueue_seq_prio (ts q : list Z) (s : Runtime) :
  policy (g_sched s) = Priority ->
  enqueue_prio_seq (g_threads s) ts (rrq (g_sched s)) = Ok q ->
  enqueue_seq ts s = Ok (with_sched (sched_with_rrq q (g_sched s)) s).
Proof.
  revert s. induction ts as [|t ts IH]; intros s Hp He; simpl in *.
  - injection He as <-. by destruct s as [[] ? ? ? ? ? ?].
  - apply bind_Ok in He as (q1 & Hq1 & He).
    unfold enqueue, enqueue_prio. rewrite Hp, Hq1. cbn [mbind res_bind].
    rewrite (IH (with_sched (sched_with_rrq q1 (g_sched s)) s)) by done.
    reflexivity.
Qed.

Lemma prio_sorted_head (ths : list Thread) (t : Z) (q : list Z) :
  prio_sorted ths (t :: q) -> forall x, x ∈ t :: q -> prio_of ths x <= prio_of ths t.
Proof.
  intros [Hq _] x Hx. apply elem_of_cons in Hx as [->|Hx]; [lia|].
  by eapply Forall_forall in Hq.
Qed.

Lemma with_prio_elem (ths : list Thread) (q ts : list Z) :
  (forall p, with_prio ths p q = with_prio ths p ts) ->
  forall x, x ∈ q <-> x ∈ ts.
Proof.
  intros H x. split; intros Hx.
  - assert (Hf : x ∈ with_prio ths (prio_of ths x) q)
      by (by apply list_elem_of_filter).
    rewrite H in Hf. by apply list_elem_of_filter in Hf as [_ ?].
  - assert (Hf : x ∈ with_prio ths (prio_of ths x) ts)
      by (by apply list_elem_of_filter).
    rewrite <- H in Hf. by apply list_elem_of_filter in Hf as [_ ?].
Qed.

(** X9: under Priority, after any sequence of enqueues into the empty queue,
    the task popped first has the highest [base_priority] of those enqueued
    and is the earliest enqueued of that priority. *)
Theorem prio_pop_highest (ts : list Z) (s : Runtime) :
  policy (g_sched s) = Priority ->
  rrq (g_sched s) = [] ->
  Forall (valid_tid (g_threads s)) ts ->
  ts <> [] ->
  exists s' t sc',
    enqueue_seq ts s = Ok s' /\
    g_threads s' = g_threads s /\
    pop (g_sched s') = Ok (t, sc') /\
    t ∈ ts /\
    (forall x, x ∈ ts -> prio_of (g_threads s) x <= prio_of (g_threads s) t) /\
    head (with_prio (g_threads s) (prio_of (g_threads s) t) ts) = Some t.
Proof.
  intros Hp Hq Hts Hne.
  destruct (enqueue_prio_seq_fifo (g_threads s) ts [] Hts) as (q & He & Hs & Hf);
    [constructor | exact I |].
  assert (Hf' : forall p, with_prio (g_threads s) p q = with_prio (g_threads s) p ts)
    by (intros p; by rewrite Hf).
  pose proof (with_prio_elem _ _ _ Hf') as Hel.
  destruct q as [|t q].
  { destruct ts as [|x ts]; [done|]. exfalso.
    assert (Hx : x ∈ []) by (apply Hel; left). by apply elem_of_nil in Hx. }
  exists (with_sched (sched_with_rrq (t :: q) (g_sched s)) s), t,
         (sched_with_rrq q (sched_with_rrq (t :: q) (g_sched s))).
  split; [apply enqueue_seq_prio; [done | by rewrite Hq]|].
  split; [done|]. split; [unfold pop; simpl; by rewrite Hp|].
  split; [apply Hel; left|]. split.
  - intros x Hx. apply (prio_sorted_head _ _ _ Hs). by apply Hel.
  - rewrite <- Hf'. unfold with_prio. by rewrite filter_cons_True.
Qed.

Lemma prio_pop_highest_witness :
  exists s' sc',
    enqueue_seq [0; 1; 2] (mkRuntime (mkSched Priority [] [] 3 [8; 4; 2] true 500 0)
                                     three_tasks (-1) 3 ∅ ∅ []) = Ok s' /\
    pop (g_sched s') = Ok (1, sc').
Proof.
  destruct (prio_pop_highest [0; 1; 2]
              (mkRuntime (mkSched Priority [] [] 3 [8; 4; 2] true 500 0)
                         three_tasks (-1) 3 ∅ ∅ []))
    as (s' & t & sc' & He & _ & Hp & _).
  - reflexivity.
  - reflexivity.
  - repeat constructor; unfold valid_tid; simpl; lia.
  - discriminate.
  - exists s', sc'. split; [exact He|].
    pose proof He as Hc. vm_compute in Hc. injection Hc as <-.
    vm_compute in Hp. injection Hp as <- <-. reflexivity.
Defined.

(** ** Aging keeps the queues consistent *)

Lemma concat_append_tail (m : list (list Z)) (i : nat) (up : list Z) (t : Z) :
  m !! i = Some up ->
  concat (<[i := up ++ [t]]> m) ≡ₚ t :: concat m.
Proof.
  intros Hi. rewrite insert_take_drop by (by eapply lookup_lt_Some).
  rewrite <- (take_drop_middle m i up) at 3 by done.
  rewrite !concat_app. simpl. rewrite <- (app_assoc up [t]). simpl.
  rewrite (app_assoc _ up), (app_assoc _ up). by rewrite <- Permutation_middle.
Qed.

(** The state a fired aging tick leaves, as a function of the first
    non-empty level found by the downward scan. *)
Lemma maybe_age_fired (now : Z) (s : Runtime) :
  policy (g_sched s) = MLFQ ->
  enable_aging (g_sched s) = true ->
  aging_interval_ms (g_sched s) <= now - last_age_ms (g_sched s) ->
  1 <= levels (g_sched s) ->
  Z.of_nat (length (mlfq (g_sched s))) = levels (g_sched s) ->
  levels (g_sched s) <= Z.of_nat (length (quantum_by_level (g_sched s))) ->
  Forall (Forall (valid_tid (g_threads s))) (mlfq (g_sched s)) ->
  let sc1 := sched_with_last_age now (g_sched s) in
  maybe_age now s = Ok (with_sched sc1 s)
  \/
  (exists L t rest up th q,
     (1 <= L)%nat /\
     mlfq (g_sched s) !! L = Some (t :: rest) /\
     mlfq (g_sched s) !! (L - 1)%nat = Some up /\
     vec_at (g_threads s) t = Ok th /\
     maybe_age now s =
       Ok (log "age" t "promote"
             (with_threads
                (<[Z.to_nat t :=
                     set_quantum_budget q (set_mlfq_level (Z.of_nat L - 1) th)]>
                   (g_threads s))
                (with_sched
                   (sched_with_mlfq
                      (<[(L - 1)%nat := up ++ [t]]> (<[L := rest]> (mlfq (g_sched s)))) sc1)
                   s)))).
Proof.
  intros Hp Hen Hdue Hl Hm Hq Hvalid sc1.
  unfold maybe_age. rewrite bool_decide_eq_true_2 by done. rewrite Hen. simpl.
  destruct (Z.ltb_spec (now - last_age_ms (g_sched s)) (aging_interval_ms (g_sched s)));
    [lia|].
  fold sc1.
  destruct (age_scan_spec (Z.to_nat (levels (g_sched s) - 1)) (with_sched sc1 s))
    as [[He _]|(L & t & rest & up & th & q & HL & H1 & _ & H3 & H4 & _ & He)];
    simpl; try lia; try done.
  - by left.
  - right. exists L, t, rest, up, th, q. simpl in *. repeat split; try done; lia.
Qed.

Lemma states_insert_same (ths : list Thread) (t : Z) (th th' : Thread) :
  vec_at ths t = Ok th -> state th' = state th ->
  state <$> <[Z.to_nat t := th']> ths = state <$> ths.
Proof.
  intros [_ Hth]%vec_at_Ok Hst. rewrite list_fmap_insert, Hst.
  apply list_insert_id. by rewrite list_lookup_fmap, Hth.
Qed.

(** X10: [maybe_age], fired or not, neither loses nor duplicates a queued
    tid (the queued tids are permuted), keeps the number of levels and the
    quanta, and changes no task state. *)
Theorem maybe_age_conserves (now : Z) (s : Runtime) :
  policy (g_sched s) = MLFQ ->
  1 <= levels (g_sched s) ->
  Z.of_nat (length (mlfq (g_sched s))) = levels (g_sched s) ->
  levels (g_sched s) <= Z.of_nat (length (quantum_by_level (g_sched s))) ->
  Forall (Forall (valid_tid (g_threads s))) (mlfq (g_sched s)) ->
  exists s',
    maybe_age now s = Ok s' /\
    concat (mlfq (g_sched s')) ≡ₚ concat (mlfq (g_sched s)) /\
    length (mlfq (g_sched s')) = length (mlfq (g_sched s)) /\
    state <$> g_threads s' = state <$> g_threads s /\
    quantum_by_level (g_sched s') = quantum_by_level (g_sched s) /\
    levels (g_sched s') = levels (g_sched s) /\
    g_current s' = g_current s /\ g_resources s' = g_resources s.
Proof.
  intros Hp Hl Hm Hq Hvalid.
  destruct (decide (enable_aging (g_sched s) = true /\
                    aging_interval_ms (g_sched s) <= now - last_age_ms (g_sched s)))
    as [[Hen Hdue]|Hidle].
  - destruct (maybe_age_fired now s Hp Hen Hdue Hl Hm Hq Hvalid)
      as [He|(L & t & rest & up & th & q & HL & H1 & H3 & H4 & He)];
      (eexists; split; [exact He|]); simpl; [done|].
    split.
    + rewrite concat_append_tail
        by (rewrite list_lookup_insert_ne by lia; exact H3).
      symmetry. by apply concat_remove_head.
    + rewrite !length_insert. split; [done|]. split; [|done].
      by apply (states_insert_same _ _ th).
  - exists s. split; [|done]. apply maybe_age_idle.
    destruct (enable_aging (g_sched s)); [|auto]. right. right.
    apply Z.nle_gt. intros Hdue. by apply Hidle.
Qed.

Lemma maybe_age_conserves_witness :
  exists s',
    maybe_age 600 (one_running MLFQ 8 0 [] [[]; [2]; [1; 3]]
                     [mkThread 1 1 1 READY "B" true 0 2 2; mkThread 2 1 1 READY "C" true 0 4 1;
                      mkThread 3 1 1 READY "D" true 0 2 2]) = Ok s' /\
    mlfq (g_sched s') = [[]; [2; 1]; [3]].
Proof.
  destruct (maybe_age_conserves 600
              (one_running MLFQ 8 0 [] [[]; [2]; [1; 3]]
                 [mkThread 1 1 1 READY "B" true 0 2 2; mkThread 2 1 1 READY "C" true 0 4 1;
                  mkThread 3 1 1 READY "D" true 0 2 2])) as (s' & He & _).
  - reflexivity.
  - simpl. lia.
  - reflexivity.
  - simpl. lia.
  - repeat constructor; unfold valid_tid; simpl; lia.
  - exists s'. split; [exact He|].
    pose proof He as Hc. vm_compute in Hc. injection Hc as <-. reflexivity.
Defined.

(** X11: after an aging tick at [now], [maybe_age] does nothing at any later
    reading less than [aging_interval_ms] after [now]: two ticks are at least
    the interval apart. *)
Theorem aging_ticks_spaced (now now' : Z) (s : Runtime) :
  policy (g_sched s) = MLFQ ->
  enable_aging (g_sched s) = true ->
  aging_interval_ms (g_sched s) <= now - last_age_ms (g_sched s) ->
  1 <= levels (g_sched s) ->
  Z.of_nat (length (mlfq (g_sched s))) = levels (g_sched s) ->
  levels (g_sched s) <= Z.of_nat (length (quantum_by_level (g_sched s))) ->
  Forall (Forall (valid_tid (g_threads s))) (mlfq (g_sched s)) ->
  now' - now < aging_interval_ms (g_sched s) ->
  exists s',
    maybe_age now s = Ok s' /\
    last_age_ms (g_sched s') = now /\
    maybe_age now' s' = Ok s'.
Proof.
  intros Hp Hen Hdue Hl Hm Hq Hvalid Hsoon.
  destruct (maybe_age_fired now s Hp Hen Hdue Hl Hm Hq Hvalid)
    as [He|(L & t & rest & up & th & q & HL & H1 & H3 & H4 & He)];
    (eexists; split; [exact He|]); (split; [reflexivity|]);
    apply maybe_age_idle; right; right; simpl; lia.
Qed.

Lemma aging_ticks_spaced_witness :
  exists s',
    maybe_age 600 (one_running MLFQ 8 0 [] [[]; []; [1]] [mkThread 1 1 1 READY "B" true 0 2 2])
    = Ok s' /\
    maybe_age 1099 s' = Ok s'.
Proof.
  destruct (aging_ticks_spaced 600 1099
              (one_running MLFQ 8 0 [] [[]; []; [1]] [mkThread 1 1 1 READY "B" true 0 2 2]))
    as (s' & He & _ & He').
  - reflexivity.
  - reflexivity.
  - simpl. lia.
  - simpl. lia.
  - reflexivity.
  - simpl. lia.
  - repeat constructor; unfold valid_tid; simpl; lia.
  - simpl. lia.
  - exists s'. split; [exact He | exact He'].
Defined.

(** ** Who is RUNNING *)

Lemma set_thread_states (t : Z) (th' : Thread) (s s' : Runtime) :
  set_thread t th' s = Ok s' ->
  state <$> g_threads s' = <[Z.to_nat t := state th']> (state <$> g_threads s) /\
  g_current s' = g_current s.
Proof.
  intros [-> _]%set_thread_inv. simpl. by rewrite list_fmap_insert.
Qed.

Lemma enqueue_mlfq_states (ths ths' : list Thread) (t : Z) (sc sc' : Scheduler) :
  enqueue_mlfq ths t sc = Ok (sc', ths') -> state <$> ths' = state <$> ths.
Proof.
  unfold enqueue_mlfq. intros H.
  res_inv H as sc1 Hsc1. res_inv H as th Hth. res_inv H as lvl Hlvl.
  res_inv H as q Hq. res_inv H as ths1 Hths1. res_inv H as old Hold.
  res_inv H as m Hm. injection H as <- <-.
  apply vec_set_inv in Hths1 as [-> _]. by apply (states_insert_same _ _ th).
Qed.

Lemma enqueue_states (t : Z) (s s' : Runtime) :
  enqueue t s = Ok s' ->
  state <$> g_threads s' = state <$> g_threads s /\ g_current s' = g_current s.
Proof.
  unfold enqueue. destruct (policy (g_sched s)).
  - by intros [= <-].
  - intros H. res_inv H as sc Hsc. by injection H as <-.
  - intros H. res_inv H as r Hr. injection H as <-. destruct r as [sc' ths'].
    simpl. split; [by eapply enqueue_mlfq_states | done].
Qed.

Lemma promote_mlfq_states (t : Z) (s s' : Runtime) :
  promote_mlfq t s = Ok s' ->
  state <$> g_threads s' = state <$> g_threads s /\ g_current s' = g_current s.
Proof.
  unfold promote_mlfq. destruct (policy (g_sched s)); try by intros [= <-].
  intros H. res_inv H as th Hth. res_inv H as q Hq. res_inv H as ths Hths.
  injection H as <-. apply vec_set_inv in Hths as [-> _]. simpl.
  split; [by apply (states_insert_same _ _ th) | done].
Qed.

Lemma demote_mlfq_states (t : Z) (s s' : Runtime) :
  demote_mlfq t s = Ok s' ->
  state <$> g_threads s' = state <$> g_threads s /\ g_current s' = g_current s.
Proof.
  unfold demote_mlfq. destruct (policy (g_sched s)); try by intros [= <-].
  intros H. res_inv H as th Hth. res_inv H as q Hq. res_inv H as ths Hths.
  injection H as <-. apply vec_set_inv in Hths as [-> _]. simpl.
  split; [by apply (states_insert_same _ _ th) | done].
Qed.

Lemma vec_at_state (ths : list Thread) (t : Z) (th : Thread) :
  vec_at ths t = Ok th -> (state <$> ths) !! Z.to_nat t = Some (state th).
Proof. intros [_ H]%vec_at_Ok. by rewrite list_lookup_fmap, H. Qed.

Lemma suspended_same (s s' : Runtime) (th : Thread) :
  vec_at (g_threads s) (g_current s) = Ok th -> state th <> RUNNING ->
  state <$> g_threads s' = state <$> g_threads s -> suspended_to s s'.
Proof.
  intros Hth Hst Heq. exists (state th). split; [done|].
  split; [by apply vec_at_Ok in Hth as [? _]|].
  rewrite Heq. symmetry. apply list_insert_id. by apply vec_at_state.
Qed.

Lemma thread_yield_suspended (s s' : Runtime) :
  thread_yield s = Ok s' -> suspended_to s s'.
Proof.
  intros H. unfold thread_yield in H.
  res_inv H as s1 Hs1. res_inv H as u Hu. injection H as <-.
  destruct (Z.leb_spec 0 (g_current s)) as [Hc|Hc].
  - res_inv Hs1 as th Hth. case_bool_decide as Hrun.
    + res_inv Hs1 as s2 Hs2. res_inv Hs1 as s3 Hs3. injection Hs1 as <-.
      apply set_thread_states in Hs2 as [Hs2 _].
      apply enqueue_states in Hs3 as [Hs3 _].
      exists READY. split; [done|]. split; [done|]. simpl. by rewrite Hs3, Hs2.
    + injection Hs1 as <-. by apply (suspended_same _ _ th).
  - injection Hs1 as <-. unfold platform_yield_to_scheduler in Hu.
    res_inv Hu as th Hth. apply vec_at_Ok in Hth as [? _]. lia.
Qed.

Lemma thread_sleep_suspended (now ms : Z) (s s' : Runtime) :
  thread_sleep now ms s = Ok s' -> suspended_to s s'.
Proof.
  intros H. unfold thread_sleep in H.
  res_inv H as th Hth. res_inv H as s1 Hs1. res_inv H as s3 Hs3. res_inv H as u Hu.
  injection H as <-.
  apply set_thread_states in Hs1 as [Hs1 _].
  assert (Hs3' : state <$> g_threads s3 = state <$> g_threads s1).
  { destruct (bool_decide _); [by apply promote_mlfq_states in Hs3 as [? _]|].
    by injection Hs3 as <-. }
  exists SLEEPING. split; [done|].
  split; [by apply vec_at_Ok in Hth as [? _]|]. by rewrite Hs3', Hs1.
Qed.

Lemma thread_wait_suspended (resource : string) (s s' : Runtime) :
  thread_wait resource s = Ok s' -> suspended_to s s'.
Proof.
  intros H. unfold thread_wait in H.
  res_inv H as th Hth. res_inv H as s1 Hs1. res_inv H as s4 Hs4. res_inv H as u Hu.
  injection H as <-.
  apply set_thread_states in Hs1 as [Hs1 _].
  assert (Hs4' : state <$> g_threads s4 = state <$> g_threads s1).
  { destruct (bool_decide _); [by apply promote_mlfq_states in Hs4 as [? _]|].
    by injection Hs4 as <-. }
  exists BLOCKED. split; [done|].
  split; [by apply vec_at_Ok in Hth as [? _]|]. by rewrite Hs4', Hs1.
Qed.

Lemma thread_work_suspended (units : Z) (s s' : Runtime) :
  thread_work units s = Ok (s', WorkSuspends) -> suspended_to s s'.
Proof.
  intros H. unfold thread_work in H.
  res_inv H as th Hth. res_inv H as b Hb. res_inv H as s1 Hs1.
  destruct (b <=? 0); [|done].
  res_inv H as s3 Hs3. res_inv H as th3 Hth3. res_inv H as s4 Hs4. res_inv H as u Hu.
  injection H as <-.
  pose proof (vec_at_Ok_valid _ _ _ Hth) as Hv.
  apply set_thread_states in Hs1 as [Hs1 _]. simpl in Hs1.
  assert (Hs3' : state <$> g_threads s3 = state <$> g_threads s).
  { transitivity (state <$> g_threads s1).
    - destruct (bool_decide _); [by apply demote_mlfq_states in Hs3 as [? _]|].
      by injection Hs3 as <-.
    - rewrite Hs1. apply list_insert_id. by apply vec_at_state. }
  case_bool_decide as Hrun.
  - res_inv Hs4 as s5 Hs5.
    apply set_thread_states in Hs5 as [Hs5 _].
    apply enqueue_states in Hs4 as [Hs4 _].
    exists READY. split; [done|]. split; [lia|]. by rewrite Hs4, Hs5, Hs3'.
  - injection Hs4 as <-. exists (state th3). split; [done|]. split; [lia|].
    rewrite Hs3'. symmetry. apply list_insert_id.
    rewrite <- Hs3'. by apply vec_at_state.
Qed.

Lemma context_trampoline_exit_suspended (s s' : Runtime) :
  context_trampoline_exit (g_current s) s = Ok s' -> suspended_to s s'.
Proof.
  intros H. unfold context_trampoline_exit in H.
  res_inv H as th Hth. res_inv H as s1 Hs1. res_inv H as u Hu. injection H as <-.
  apply set_thread_states in Hs1 as [Hs1 _].
  exists FINISHED. split; [done|].
  split; [by apply vec_at_Ok in Hth as [? _]|]. done.
Qed.

(** X12: between dispatches no task is RUNNING: when only the current task
    can be RUNNING, each way in which it hands control back to the scheduler
    ([thread_yield], [thread_sleep], [thread_wait], a [thread_work] that
    expires, the end of the entry closure) leaves the table without a RUNNING
    task. *)
Theorem suspension_leaves_none_running (s s' : Runtime) :
  (forall i th, g_threads s !! i = Some th -> state th = RUNNING ->
                Z.of_nat i = g_current s) ->
  thread_yield s = Ok s' \/
  (exists now ms, thread_sleep now ms s = Ok s') \/
  (exists resource, thread_wait resource s = Ok s') \/
  (exists units, thread_work units s = Ok (s', WorkSuspends)) \/
  context_trampoline_exit (g_current s) s = Ok s' ->
  none_running s'.
Proof.
  intros Honly Hop.
  assert (Hsus : suspended_to s s').
  { destruct Hop as [H|[(now & ms & H)|[(r & H)|[(u & H)|H]]]].
    - by apply thread_yield_suspended.
    - by eapply thread_sleep_suspended.
    - by eapply thread_wait_suspended.
    - by eapply thread_work_suspended.
    - by apply context_trampoline_exit_suspended. }
  destruct Hsus as (st & Hst & Hc & Heq).
  unfold none_running. apply Forall_lookup. intros i th' Hi Hrun.
  assert (Hi' : (state <$> g_threads s') !! i = Some RUNNING)
    by (by rewrite list_lookup_fmap, Hi, <- Hrun).
  rewrite Heq in Hi'.
  destruct (decide (i = Z.to_nat (g_current s))) as [->|Hne].
  - apply list_lookup_insert_Some in Hi' as [(_ & ? & _)|[? _]]; congruence.
  - rewrite list_lookup_insert_ne in Hi' by done.
    rewrite list_lookup_fmap in Hi'.
    destruct (g_threads s !! i) as [th|] eqn:Hth; [|done].
    injection Hi' as Hi'. specialize (Honly i th Hth Hi'). lia.
Qed.

Lemma suspension_leaves_none_running_witness :
  exists s',
    thread_wait "go" (one_running RoundRobin 8 0 [] [] [mkThread 1 5 5 READY "B" true 0 8 0])
    = Ok s' /\ none_running s'.
Proof.
  destruct (thread_wait_appends "go"
              (one_running RoundRobin 8 0 [] [] [mkThread 1 5 5 READY "B" true 0 8 0])
              (task_A RUNNING 8 0)) as (s' & th' & Hw & _).
  - reflexivity.
  - simpl. intros Hp. discriminate Hp.
  - exists s'. split; [exact Hw|].
    apply (suspension_leaves_none_running
             (one_running RoundRobin 8 0 [] [] [mkThread 1 5 5 READY "B" true 0 8 0]) s').
    + intros i th Hi Hrun. destruct i as [|[|i]]; simpl in Hi.
      * reflexivity.
      * injection Hi as <-. discriminate Hrun.
      * discriminate Hi.
    + right. right. left. exists "go"%string. exact Hw.
Defined.

Lemma no_new_running_refl (s : Runtime) : no_new_running s s.
Proof. split; done. Qed.

Lemma no_new_running_trans (s1 s2 s3 : Runtime) :
  no_new_running s1 s2 -> no_new_running s2 s3 -> no_new_running s1 s3.
Proof. intros [Hc1 H1] [Hc2 H2]. split; [congruence | auto]. Qed.

Lemma no_new_running_states (s s' : Runtime) :
  state <$> g_threads s' = state <$> g_threads s -> g_current s' = g_current s ->
  no_new_running s s'.
Proof. intros He Hc. split; [done|]. intros i. by rewrite He. Qed.

Lemma admit_at_no_new_running (cond : Thread -> bool) (ev : string) (i : nat)
      (s s' : Runtime) :
  admit_at cond ev i s = Ok s' -> no_new_running s s'.
Proof.
  intros H. unfold admit_at in H.
  destruct (g_threads s !! i) as [th|] eqn:Hi; [|done].
  destruct (cond th); [|injection H as <-; apply no_new_running_refl].
  res_inv H as s2 Hs2. injection H as <-.
  apply enqueue_states in Hs2 as [Hst Hc]. unfold no_new_running. simpl in *.
  split; [done|]. intros j. rewrite Hst, list_fmap_insert.
  destruct (decide (i = j)) as [->|Hne].
  - intros [(_ & Hx & _)|[Hx _]]%list_lookup_insert_Some;
      [simpl in Hx; discriminate Hx | done].
  - by rewrite list_lookup_insert_ne.
Qed.

Lemma admit_loop_no_new_running (cond : Thread -> bool) (ev : string) (idx : list nat)
      (s s' : Runtime) :
  admit_loop cond ev idx s = Ok s' -> no_new_running s s'.
Proof.
  revert s. induction idx as [|i idx IH]; intros s H; simpl in H.
  - injection H as <-. apply no_new_running_refl.
  - res_inv H as s1 Hs1. eapply no_new_running_trans; [|by apply IH].
    by eapply admit_at_no_new_running.
Qed.

Lemma age_scan_states (n : nat) (s s' : Runtime) :
  age_scan n s = Ok s' ->
  state <$> g_threads s' = state <$> g_threads s /\ g_current s' = g_current s.
Proof.
  induction n as [|n IH]; cbn [age_scan]; intros H.
  - by injection H as <-.
  - res_inv H as q Hq. destruct q as [|t q']; [by apply IH|].
    res_inv H as m1 Hm1. res_inv H as th Hth. res_inv H as qn Hqn.
    res_inv H as ths Hths. res_inv H as up Hup. res_inv H as m2 Hm2.
    injection H as <-. simpl. apply vec_set_inv in Hths as [-> _].
    split; [by apply (states_insert_same _ _ th) | done].
Qed.

Lemma maybe_age_states (now : Z) (s s' : Runtime) :
  maybe_age now s = Ok s' ->
  state <$> g_threads s' = state <$> g_threads s /\ g_current s' = g_current s.
Proof.
  unfold maybe_age. destruct (_ || _); [by intros [= <-]|].
  destruct (_ <? _); [by intros [= <-]|].
  intros H. by apply age_scan_states in H.
Qed.

(** A dispatch is a defined execution only into a built context, and it
    changes the state of no other task. *)
Lemma switch_to_thread_context (t : Z) (s s' : Runtime) :
  switch_to_thread t s = Ok s' ->
  (exists th', vec_at (g_threads s') t = Ok th' /\ cx_made th' = true) /\
  forall i, i <> Z.to_nat t ->
            (state <$> g_threads s') !! i = (state <$> g_threads s) !! i.
Proof.
  intros H. unfold switch_to_thread in H.
  res_inv H as s0 Hs0. res_inv H as th Hth. res_inv H as q Hq. res_inv H as s2 Hs2.
  destruct (cx_made th) eqn:Hcx; [|done]. injection H as <-.
  destruct (ensure_context_inv _ _ _ Hs0) as (th0 & _ & _ & _ & _ & _ & Hst & _).
  apply set_thread_inv in Hs2 as [-> Hv]. simpl in *. split.
  - eexists. split; [by apply vec_at_insert_eq|]. done.
  - intros i Hi. rewrite <- Hst, !list_lookup_fmap.
    by rewrite list_lookup_insert_ne.
Qed.

(** X13: starting without a RUNNING task, an iteration of the run loop that
    dispatches task [t] leaves [t] current and RUNNING, with a built context,
    and nobody else RUNNING; an iteration that dispatches nobody leaves no
    task RUNNING and the current task as it was. *)
Theorem schedule_once_runs_dispatched (now : Z * Z) (s s' : Runtime) (o : option Z) :
  none_running s ->
  schedule_once now s = Ok (s', o) ->
  match o with
  | Some t =>
      g_current s' = t /\
      (exists th, vec_at (g_threads s') t = Ok th /\ state th = RUNNING /\
                  cx_made th = true) /\
      forall i th, g_threads s' !! i = Some th -> state th = RUNNING -> Z.of_nat i = t
  | None => none_running s' /\ g_current s' = g_current s
  end.
Proof.
  intros Hnone H. unfold schedule_once in H.
  res_inv H as s1 Hs1. res_inv H as s2 Hs2. res_inv H as s3 Hs3.
  assert (K3 : no_new_running s s3).
  { eapply no_new_running_trans; [by eapply admit_loop_no_new_running|].
    eapply no_new_running_trans; [by eapply admit_loop_no_new_running|].
    apply maybe_age_states in Hs3 as [? ?]. by apply no_new_running_states. }
  assert (Hnone3 : forall i, (state <$> g_threads s3) !! i <> Some RUNNING).
  { intros i Hi. destruct K3 as [_ K3]. apply K3 in Hi.
    rewrite list_lookup_fmap in Hi.
    destruct (g_threads s !! i) as [th|] eqn:Hth; [|done]. injection Hi as Hi.
    eapply Forall_lookup_1 in Hnone; [|exact Hth]. done. }
  assert (Hnone3' : none_running s3).
  { apply Forall_lookup. intros i th Hi Hrun. apply (Hnone3 i).
    by rewrite list_lookup_fmap, Hi, <- Hrun. }
  destruct (empty (g_sched s3)).
  { injection H as <- <-. split; [done | apply K3]. }
  res_inv H as r Hr. destruct (0 <=? r.1).
  - res_inv H as s5 Hs5. injection H as <- <-.
    destruct (switch_to_thread_budget _ _ _ Hs5)
      as (th & th' & Hth & Hth' & Hrun & _ & _ & Hc & _).
    destruct (switch_to_thread_context _ _ _ Hs5) as [(th'' & Hth'' & Hcx) Hothers].
    rewrite Hth' in Hth''. injection Hth'' as <-.
    split; [done|]. split; [by exists th'|].
    intros i thi Hi Hruni.
    destruct (decide (i = Z.to_nat r.1)) as [->|Hne].
    { apply vec_at_Ok in Hth as [? _]. lia. }
    exfalso. apply (Hnone3 i).
    change ((state <$> g_threads s3) !! i = Some RUNNING)
      with ((state <$> g_threads (with_sched r.2 s3)) !! i = Some RUNNING).
    rewrite <- (Hothers i Hne). by rewrite list_lookup_fmap, Hi, <- Hruni.
  - injection H as <- <-. split; [done | apply K3].
Qed.

Lemma schedule_once_runs_dispatched_witness :
  exists s',
    schedule_once (1, 1) rr_requeued = Ok (s', Some 0) /\ g_current s' = 0.
Proof.
  assert (H : exists s', schedule_once (1, 1) rr_requeued = Ok (s', Some 0)).
  { eexists. vm_compute. reflexivity. }
  destruct H as [s' H]. exists s'. split; [exact H|].
  apply (schedule_once_runs_dispatched (1, 1) rr_requeued s' (Some 0)).
  - repeat constructor. simpl. discriminate.
  - exact H.
Defined.

(** ** Admission and wake-up under RoundRobin *)

(** The loop over the table positions [length pre ..], when the table is
    [pre ++ rest]: each task of [rest] satisfying [cond] becomes READY, and
    their tids and events are appended in table order. *)
Lemma admit_loop_rr (cond : Thread -> bool) (ev : string) (rest pre : list Thread)
      (q : list Z) (m : list (list Z)) (l : Z) (qs : list Z) (ea : bool) (ai la : Z)
      (cur nxt : Z) (rs : gmap string (list Z)) (tls : gmap Z (gmap string Z))
      (lg : list LogEntry) :
  admit_loop cond ev (seq (length pre) (length rest))
    (mkRuntime (mkSched RoundRobin q m l qs ea ai la) (pre ++ rest) cur nxt rs tls lg)
  = Ok (mkRuntime
          (mkSched RoundRobin (q ++ (tid <$> filter (fun th => cond th = true) rest))
                   m l qs ea ai la)
          (pre ++ (admitted cond <$> rest)) cur nxt rs tls
          (lg ++ ((fun th => mkLog ev (tid th) "") <$>
                    filter (fun th => cond th = true) rest))).
Proof.
  revert pre q lg. induction rest as [|th rest IH]; intros pre q lg; simpl.
  - by rewrite !app_nil_r.
  - unfold admit_at. simpl. rewrite list_lookup_middle by done.
    unfold admitted at 1. destruct (cond th) eqn:Hc.
    + rewrite filter_cons_True by done.
      unfold enqueue. simpl. unfold log. simpl.
      rewrite insert_app_r_alt by lia. rewrite Nat.sub_diag. simpl.
      specialize (IH (pre ++ [set_state READY th]) (q ++ [tid th])
                     (lg ++ [mkLog ev (tid th) ""])).
      rewrite length_app in IH. simpl in IH.
      replace (length pre + 1)%nat with (S (length pre)) in IH by lia.
      rewrite <- !app_assoc in IH. simpl in IH.
      unfold enqueue_rr, with_log, with_sched, with_threads, sched_with_rrq. simpl.
      rewrite IH. reflexivity.
    + rewrite filter_cons_False by (by rewrite Hc).
      specialize (IH (pre ++ [th]) q lg).
      rewrite length_app in IH. simpl in IH.
      replace (length pre + 1)%nat with (S (length pre)) in IH by lia.
      rewrite <- !app_assoc in IH. simpl in IH. exact IH.
Qed.

Lemma admit_loop_round_robin (cond : Thread -> bool) (ev : string) (s : Runtime) :
  policy (g_sched s) = RoundRobin ->
  admit_loop cond ev (seq 0 (length (g_threads s))) s
  = Ok (with_log
          (g_log s ++ ((fun th => mkLog ev (tid th) "") <$>
                         filter (fun th => cond th = true) (g_threads s)))
          (with_threads (admitted cond <$> g_threads s)
             (with_sched
                (sched_with_rrq
                   (rrq (g_sched s) ++
                      (tid <$> filter (fun th => cond th = true) (g_threads s)))
                   (g_sched s)) s))).
Proof.
  intros Hp. destruct s as [[p q m l qs ea ai la] ths cur nxt rs tls lg].
  simpl in *. subst p.
  exact (admit_loop_rr cond ev ths [] q m l qs ea ai la cur nxt rs tls lg).
Qed.

(** X14: [wake_sleepers] under RoundRobin: the sleepers whose deadline has
    passed become READY, join the queue in table order and get a [wakeup]
    record each; every other task, also a sleeper with a later deadline, is
    left alone. *)
Theorem wake_sleepers_round_robin (now : Z) (s : Runtime) :
  policy (g_sched s) = RoundRobin ->
  let due := fun th => bool_decide (state th = SLEEPING) && (wake_time_ms th <=? now) in
  exists s',
    wake_sleepers now s = Ok s' /\
    g_threads s' = admitted due <$> g_threads s /\
    rrq (g_sched s') =
      rrq (g_sched s) ++ (tid <$> filter (fun th => due th = true) (g_threads s)) /\
    g_log s' =
      g_log s ++ ((fun th => mkLog "wakeup" (tid th) "") <$>
                    filter (fun th => due th = true) (g_threads s)) /\
    (forall i th,
       g_threads s !! i = Some th ->
       (state th = SLEEPING /\ wake_time_ms th <= now ->
        g_threads s' !! i = Some (set_state READY th)) /\
       (state th <> SLEEPING \/ now < wake_time_ms th ->
        g_threads s' !! i = Some th)).
Proof.
  intros Hp due. eexists. split; [by apply admit_loop_round_robin|]. simpl.
  split; [done|]. split; [done|]. split; [done|].
  intros i th Hi. rewrite list_lookup_fmap, Hi. simpl. unfold admitted, due. split.
  - intros [Hst Hw]. rewrite bool_decide_eq_true_2 by done.
    destruct (Z.leb_spec (wake_time_ms th) now); [done | lia].
  - intros [Hst|Hw].
    + by rewrite bool_decide_eq_false_2 by done.
    + destruct (Z.leb_spec (wake_time_ms th) now); [lia|]. by rewrite andb_false_r.
Qed.

Lemma wake_sleepers_round_robin_witness :
  exists s',
    wake_sleepers 100
      (one_running RoundRobin 8 0 [] []
         [mkThread 1 1 1 SLEEPING "B" true 150 8 0; mkThread 2 1 1 SLEEPING "C" true 100 8 0])
    = Ok s' /\
    rrq (g_sched s') = [2] /\
    g_threads s' !! 1%nat = Some (mkThread 1 1 1 SLEEPING "B" true 150 8 0).
Proof.
  destruct (wake_sleepers_round_robin 100
              (one_running RoundRobin 8 0 [] []
                 [mkThread 1 1 1 SLEEPING "B" true 150 8 0; mkThread 2 1 1 SLEEPING "C" true 100 8 0]))
    as (s' & Hw & _ & Hq & _ & Hi).
  - reflexivity.
  - exists s'. split; [exact Hw|]. split; [exact Hq|].
    apply (Hi 1%nat (mkThread 1 1 1 SLEEPING "B" true 150 8 0)); [reflexivity|].
    right. simpl. lia.
Defined.

(** ** An idle iteration *)

Lemma filter_none (cond : Thread -> bool) (ths : list Thread) :
  Forall (fun th => cond th = false) ths ->
  filter (fun th => cond th = true) ths = [] /\ admitted cond <$> ths = ths.
Proof.
  induction 1 as [|th ths Hth _ [IH1 IH2]]; [done|]. split.
  - rewrite filter_cons_False by (by rewrite Hth). exact IH1.
  - rewrite fmap_cons, IH2. unfold admitted. by rewrite Hth.
Qed.

Lemma admit_loop_none (cond : Thread -> bool) (ev : string) (idx : list nat) (s : Runtime) :
  Forall (fun th => cond th = false) (g_threads s) ->
  Forall (fun i => (i < length (g_threads s))%nat) idx ->
  admit_loop cond ev idx s = Ok s.
Proof.
  intros Hc Hidx. induction Hidx as [|i idx Hi _ IH]; [done|]. simpl.
  unfold admit_at. destruct (lookup_lt_is_Some_2 _ _ Hi) as [th Hth].
  rewrite Hth. eapply Forall_lookup_1 in Hc; [|exact Hth]. rewrite Hc.
  exact IH.
Qed.

Lemma seq_below (n : nat) : Forall (fun i => (i < n)%nat) (seq 0 n).
Proof. apply Forall_forall. intros i Hi%list_elem_of_In%in_seq. lia. Qed.

(** X15: with nothing to admit, nobody to wake, no aging due and an empty
    ready structure, an iteration of the run loop changes nothing and dispatches
    nobody: tasks that are BLOCKED (or sleeping with a later deadline) keep
    the loop idle. *)
Theorem schedule_once_idle (now : Z * Z) (s : Runtime) :
  Forall (fun th => state th <> NEW /\
                    (state th = SLEEPING -> now.1 < wake_time_ms th)) (g_threads s) ->
  empty (g_sched s) = true ->
  (policy (g_sched s) <> MLFQ \/ enable_aging (g_sched s) = false \/
   now.2 - last_age_ms (g_sched s) < aging_interval_ms (g_sched s)) ->
  schedule_once now s = Ok (s, None).
Proof.
  intros Hths Hempty Hage. unfold schedule_once.
  rewrite admit_loop_none; [|by eapply Forall_impl;
      [exact Hths | intros th [Hn _]; by rewrite bool_decide_eq_false_2]|apply seq_below].
  cbn [mbind res_bind]. unfold wake_sleepers.
  rewrite admit_loop_none; [| |apply seq_below].
  - cbn [mbind res_bind]. rewrite maybe_age_idle by done. cbn [mbind res_bind].
    by rewrite Hempty.
  - eapply Forall_impl; [exact Hths|]. intros th [_ Hs]. simpl.
    destruct (decide (state th = SLEEPING)) as [Hst|Hst].
    + specialize (Hs Hst). destruct (Z.leb_spec (wake_time_ms th) now.1); [lia|].
      by rewrite andb_false_r.
    + by rewrite bool_decide_eq_false_2.
Qed.

Lemma schedule_once_idle_witness :
  schedule_once (100, 100)
    (mkRuntime (mkSched RoundRobin [] [] 3 [8; 4; 2] true 500 0)
               [mkThread 0 1 1 BLOCKED "W" true 0 8 0; mkThread 1 1 1 SLEEPING "S" true 150 8 0]
               0 2 ∅ ∅ [])
  = Ok (mkRuntime (mkSched RoundRobin [] [] 3 [8; 4; 2] true 500 0)
                  [mkThread 0 1 1 BLOCKED "W" true 0 8 0; mkThread 1 1 1 SLEEPING "S" true 150 8 0]
                  0 2 ∅ ∅ [], None).
Proof.
  apply schedule_once_idle.
  - repeat constructor; simpl; try discriminate; lia.
  - reflexivity.
  - left. simpl. discriminate.
Defined.

(** ** From creation to the first dispatch *)

Lemma create_all_facts (specs : list (string * Z)) (s : Runtime) :
  let r := create_all specs s in
  r.1 = seqZ (g_next_tid s) (Z.of_nat (length specs)) /\
  exists new,
    g_threads r.2 = g_threads s ++ new /\
    tid <$> new = seqZ (g_next_tid s) (Z.of_nat (length specs)) /\
    Forall (fun th => state th = NEW) new /\
    g_sched r.2 = g_sched s /\ g_log r.2 = g_log s /\ g_current r.2 = g_current s /\
    Forall (fun th => cx_made th = false) new.
Proof.
  revert s. induction specs as [|[nm p] specs IH]; intros s.
  - simpl. split; [done|]. exists []. by rewrite app_nil_r.
  - destruct (IH (thread_create nm p s).2)
      as (H1 & new & H2 & H3 & H4 & H5 & H6 & H7 & H8).
    change (g_next_tid (thread_create nm p s).2) with (g_next_tid s + 1) in H1, H3.
    change (g_sched (thread_create nm p s).2) with (g_sched s) in H5.
    change (g_log (thread_create nm p s).2) with (g_log s) in H6.
    change (g_current (thread_create nm p s).2) with (g_current s) in H7.
    cbn [create_all fst snd length].
    change ((thread_create nm p s).1) with (g_next_tid s).
    rewrite (seqZ_cons (g_next_tid s)) by lia.
    replace (Z.pred (Z.of_nat (S (length specs)))) with (Z.of_nat (length specs)) by lia.
    replace (Z.succ (g_next_tid s)) with (g_next_tid s + 1) by lia.
    split; [by rewrite H1|].
    exists (mkThread (g_next_tid s)
              (if p <? 1 then 1 else if 10 <? p then 10 else p)
              (if p <? 1 then 1 else if 10 <? p then 10 else p) NEW nm false 0 8 0 :: new).
    split; [rewrite H2; simpl; by rewrite <- app_assoc|].
    split; [rewrite fmap_cons; by rewrite H3|]. split; [by constructor|].
    do 3 (split; [done|]). by constructor.
Qed.

(** A dispatch under RoundRobin or Priority of a task that is not NEW: into
    a built context it makes the task current and RUNNING and logs [run];
    into a context that was never built it is not a defined execution. *)
Lemma switch_to_thread_plain (t : Z) (s : Runtime) (th : Thread) :
  policy (g_sched s) <> MLFQ ->
  vec_at (g_threads s) t = Ok th ->
  state th <> NEW ->
  switch_to_thread t s =
    if cx_made th
    then Ok (log "run" t (name th)
               (with_threads (<[Z.to_nat t := set_state RUNNING th]> (g_threads s))
                             (with_current t s)))
    else Fault (NoContext t).
Proof.
  intros Hp Hth Hst. unfold switch_to_thread, ensure_context. rewrite Hth.
  cbn [mbind res_bind]. rewrite (bool_decide_eq_false_2 _ Hst).
  cbn [mbind res_bind]. simpl. rewrite Hth. simpl.
  rewrite bool_decide_eq_false_2 by done. simpl.
  rewrite (set_thread_Ok t th) by done. reflexivity.
Qed.

Lemma filter_all_new (new : list Thread) :
  Forall (fun th => state th = NEW) new ->
  filter (fun th => bool_decide (state th = NEW) = true) new = new /\
  admitted (fun th => bool_decide (state th = NEW)) <$> new = set_state READY <$> new.
Proof.
  induction 1 as [|th new Hth _ [IH1 IH2]]; [done|]. split.
  - rewrite filter_cons_True by (by rewrite bool_decide_eq_true_2). by rewrite IH1.
  - rewrite !fmap_cons, IH2. unfold admitted. by rewrite bool_decide_eq_true_2.
Qed.

(** X16: tasks created before [thread_run] get the tids 0, 1, 2, ... in
    creation order; with [SCHED] unset and no [set_policy], the admission
    loop of the first iteration of the run loop makes them READY and queues
    them in that order, none of them with a built context.  The iteration
    then dispatches the task created first: [ensure_context] does not build
    its context, because the task is READY and no longer NEW, and the switch
    into the zero-initialised context is not a defined execution.  Without
    tasks the iteration changes nothing. *)
Theorem first_dispatch_round_robin (specs : list (string * Z)) (boot : Z) (now : Z * Z) :
  let r := create_all specs (initial_runtime boot) in
  let n := Z.of_nat (length specs) in
  let s0 := thread_run_boot None r.2 in
  r.1 = seqZ 0 n /\
  (exists s1,
     admit_loop (fun th => bool_decide (state th = NEW)) "ready"
                (seq 0 (length (g_threads s0))) s0 = Ok s1 /\
     rrq (g_sched s1) = seqZ 0 n /\
     state <$> g_threads s1 = replicate (length specs) READY /\
     tid <$> g_threads s1 = seqZ 0 n /\
     Forall (fun th => cx_made th = false) (g_threads s1) /\
     g_log s1 = g_log s0 ++ ((fun t => mkLog "ready" t "") <$> seqZ 0 n)) /\
  (specs <> [] -> schedule_once now s0 = Fault (NoContext 0)) /\
  (specs = [] -> schedule_once now s0 = Ok (s0, None)).
Proof.
  intros r n s0.
  destruct (create_all_facts specs (initial_runtime boot))
    as (H1 & new & H2 & H3 & H4 & H5 & H6 & H7 & H8).
  fold r in H1, H2, H5, H6, H7. simpl in *. fold n in H1, H3.
  split; [done|].
  destruct (filter_all_new new H4) as [Hf Ha].
  assert (Hp0 : policy (g_sched s0) = RoundRobin) by (subst s0; simpl; by rewrite H5).
  assert (Hths0 : g_threads s0 = new) by (subst s0; simpl; by rewrite H2).
  assert (Hlen : length new = length specs).
  { apply (f_equal length) in H3. rewrite length_fmap, length_seqZ in H3. lia. }
  assert (Hrrq0 : rrq (g_sched s0) = []) by (subst s0; simpl; by rewrite H5).
  rewrite (admit_loop_round_robin _ _ s0 Hp0).
  rewrite Hths0, Hf, Ha, H3, Hrrq0.
  set (s1 := with_log _ _).
  split.
  { exists s1. split; [done|]. subst s1. simpl. split; [done|]. split.
    - rewrite <- Hlen. clear. induction new as [|th new IH]; [done|].
      rewrite !fmap_cons. simpl. by rewrite IH.
    - split.
      + rewrite <- H3. clear. induction new as [|th new IH]; [done|].
        rewrite !fmap_cons. simpl. by rewrite IH.
      + split.
        * apply Forall_fmap. eapply Forall_impl; [exact H8|]. done.
        * f_equal. rewrite <- H3. by rewrite <- list_fmap_compose. }
  assert (Hp1 : policy (g_sched s1) = RoundRobin) by exact Hp0.
  assert (Hready : Forall (fun th => (bool_decide (state th = SLEEPING)
                                      && (wake_time_ms th <=? now.1)) = false)
                     (g_threads s1)).
  { subst s1. simpl. apply Forall_fmap, Forall_forall. intros th _. done. }
  assert (Hstep : schedule_once now s0 =
            if empty (g_sched s1) then Ok (s1, None)
            else r ← pop (g_sched s1);
                 if 0 <=? r.1
                 then s5 ← switch_to_thread r.1 (with_sched r.2 s1); Ok (s5, Some r.1)
                 else Ok (with_sched r.2 s1, None)).
  { unfold schedule_once.
    rewrite (admit_loop_round_robin _ _ s0 Hp0). cbn [mbind res_bind].
    rewrite Hths0, Hf, Ha, H3, Hrrq0. fold s1.
    unfold wake_sleepers. rewrite admit_loop_none; [|exact Hready|apply seq_below].
    cbn [mbind res_bind].
    rewrite maybe_age_idle by (left; rewrite Hp1; discriminate).
    reflexivity. }
  split.
  - intros Hne. rewrite Hstep.
    assert (Hn : 0 < n) by (subst n; destruct specs; [done | simpl; lia]).
    assert (Hrrq : rrq (g_sched s1) = 0 :: seqZ 1 (n - 1)).
    { subst s1. simpl. rewrite (seqZ_cons 0) by done. reflexivity. }
    unfold empty, pop. rewrite Hp1, Hrrq. simpl.
    destruct new as [|th0 new'].
    { simpl in H3. rewrite (seqZ_cons 0) in H3 by done. discriminate H3. }
    apply Forall_cons in H8 as [Hcx0 _].
    rewrite (switch_to_thread_plain 0 _ (set_state READY th0));
      [|change (policy (g_sched s0) <> MLFQ); rewrite Hp0; discriminate
       |reflexivity|discriminate].
    simpl. by rewrite Hcx0.
  - intros ->. reflexivity.
Qed.

Lemma first_dispatch_round_robin_witness :
  schedule_once (1, 1)
    (thread_run_boot None
       (create_all [("A"%string, 1); ("B"%string, 5)] (initial_runtime 0)).2)
  = Fault (NoContext 0) /\
  schedule_once (1, 1) rr_one_task = Fault (NoContext 0).
Proof.
  split.
  - apply (proj1 (proj2 (proj2 (first_dispatch_round_robin
                                  [("A"%string, 1); ("B"%string, 5)] 0 (1, 1))))).
    discriminate.
  - apply (proj1 (proj2 (proj2 (first_dispatch_round_robin
                                  [("A"%string, 1)] 0 (1, 1))))).
    discriminate.
Defined.

(** ** Starting a task without a context *)

Lemma cx_insert_same (ths : list Thread) (t : Z) (th th' : Thread) :
  vec_at ths t = Ok th -> cx_made th' = cx_made th ->
  cx_made <$> <[Z.to_nat t := th']> ths = cx_made <$> ths.
Proof.
  intros [_ Hth]%vec_at_Ok Hst. rewrite list_fmap_insert, Hst.
  apply list_insert_id. by rewrite list_lookup_fmap, Hth.
Qed.

Lemma enqueue_cx (t : Z) (s s' : Runtime) :
  enqueue t s = Ok s' -> cx_made <$> g_threads s' = cx_made <$> g_threads s.
Proof.
  unfold enqueue. destruct (policy (g_sched s)).
  - by intros [= <-].
  - intros H. res_inv H as sc Hsc. by injection H as <-.
  - intros H. res_inv H as r Hr. injection H as <-. destruct r as [sc' ths'].
    simpl. unfold enqueue_mlfq in Hr.
    res_inv Hr as sc1 Hsc1. res_inv Hr as th Hth. res_inv Hr as lvl Hlvl.
    res_inv Hr as q Hq. res_inv Hr as ths1 Hths1. res_inv Hr as old Hold.
    res_inv Hr as m Hm. injection Hr as <- <-.
    apply vec_set_inv in Hths1 as [-> _]. by apply (cx_insert_same _ _ th).
Qed.

(** The admission loops build no context, and make no task NEW. *)
Lemma admit_at_cx (cond : Thread -> bool) (ev : string) (i : nat) (s s' : Runtime) :
  admit_at cond ev i s = Ok s' ->
  cx_made <$> g_threads s' = cx_made <$> g_threads s /\
  (forall j, (state <$> g_threads s') !! j = Some NEW ->
             (state <$> g_threads s) !! j = Some NEW) /\
  (forall th, g_threads s !! i = Some th -> cond th = bool_decide (state th = NEW) ->
              (state <$> g_threads s') !! i <> Some NEW).
Proof.
  intros H. unfold admit_at in H.
  destruct (g_threads s !! i) as [th|] eqn:Hi; [|done].
  destruct (cond th) eqn:Hc.
  - res_inv H as s2 Hs2. injection H as <-.
    pose proof (enqueue_cx _ _ _ Hs2) as Hcx.
    apply enqueue_states in Hs2 as [Hst _]. simpl in *.
    rewrite Hcx, Hst, !list_fmap_insert. simpl. split; [|split].
    + apply list_insert_id. by rewrite list_lookup_fmap, Hi.
    + intros j. destruct (decide (i = j)) as [->|Hne].
      * intros [(_ & Hx & _)|[Hx _]]%list_lookup_insert_Some; [discriminate Hx | done].
      * by rewrite list_lookup_insert_ne.
    + intros th' _ _.
      rewrite list_lookup_insert_eq; [discriminate|].
      rewrite length_fmap. by eapply lookup_lt_Some.
  - injection H as <-. split; [done|]. split; [done|].
    intros th' [= <-] Hn. rewrite list_lookup_fmap, Hi. simpl.
    intros [= Hst]. rewrite Hc in Hn. symmetry in Hn.
    by apply bool_decide_eq_false_1 in Hn.
Qed.

Lemma admit_loop_cx (cond : Thread -> bool) (ev : string) (idx : list nat)
      (s s' : Runtime) :
  admit_loop cond ev idx s = Ok s' ->
  cx_made <$> g_threads s' = cx_made <$> g_threads s /\
  forall j, (state <$> g_threads s') !! j = Some NEW ->
            (state <$> g_threads s) !! j = Some NEW.
Proof.
  revert s. induction idx as [|i idx IH]; intros s H; simpl in H.
  - by injection H as <-.
  - res_inv H as s1 Hs1. destruct (admit_at_cx _ _ _ _ _ Hs1) as (Hc1 & Hn1 & _).
    destruct (IH _ H) as [Hc2 Hn2]. split; [congruence | auto].
Qed.

(** After the admission loop of [schedule_once] no visited task is NEW. *)
Lemma admit_loop_new (ev : string) (idx : list nat) (s s' : Runtime) :
  admit_loop (fun th => bool_decide (state th = NEW)) ev idx s = Ok s' ->
  forall j, (state <$> g_threads s') !! j = Some NEW -> j ∉ idx.
Proof.
  revert s. induction idx as [|i idx IH]; intros s H j Hj; simpl in H.
  - apply not_elem_of_nil.
  - res_inv H as s1 Hs1. apply not_elem_of_cons. split; [|by eapply IH].
    intros ->. destruct (admit_loop_cx _ _ _ _ _ H) as [_ Hn].
    specialize (Hn _ Hj).
    destruct (admit_at_cx _ _ _ _ _ Hs1) as (_ & Hn1 & Hi).
    specialize (Hn1 _ Hn). rewrite list_lookup_fmap in Hn1.
    destruct (g_threads s !! i) as [th|] eqn:Hth; [|done].
    by apply (Hi th).
Qed.

Lemma age_scan_cx (n : nat) (s s' : Runtime) :
  age_scan n s = Ok s' -> cx_made <$> g_threads s' = cx_made <$> g_threads s.
Proof.
  induction n as [|n IH]; cbn [age_scan]; intros H.
  - by injection H as <-.
  - res_inv H as q Hq. destruct q as [|t q']; [by apply IH|].
    res_inv H as m1 Hm1. res_inv H as th Hth. res_inv H as qn Hqn.
    res_inv H as ths Hths. res_inv H as up Hup. res_inv H as m2 Hm2.
    injection H as <-. simpl. apply vec_set_inv in Hths as [-> _].
    by apply (cx_insert_same _ _ th).
Qed.

Lemma maybe_age_cx (now : Z) (s s' : Runtime) :
  maybe_age now s = Ok s' -> cx_made <$> g_threads s' = cx_made <$> g_threads s.
Proof.
  unfold maybe_age. destruct (_ || _); [by intros [= <-]|].
  destruct (_ <? _); [by intros [= <-]|].
  intros H. by apply age_scan_cx in H.
Qed.

Lemma none_built_fmap (ths : list Thread) :
  Forall (fun th => cx_made th = false) ths <->
  forall j b, (cx_made <$> ths) !! j = Some b -> b = false.
Proof.
  rewrite Forall_lookup. split.
  - intros H j b. rewrite list_lookup_fmap.
    destruct (ths !! j) as [th|] eqn:Hth; [|done]. intros [= <-]. by eapply H.
  - intros H j th Hth. apply (H j). by rewrite list_lookup_fmap, Hth.
Qed.

(** An iteration of the run loop that starts from unbuilt contexts and is a
    defined execution dispatches nobody. *)
Lemma schedule_once_unbuilt (now : Z * Z) (s s' : Runtime) (o : option Z) :
  Forall (fun th => cx_made th = false) (g_threads s) ->
  schedule_once now s = Ok (s', o) ->
  o = None /\
  Forall (fun th => cx_made th = false /\ state th <> NEW) (g_threads s').
Proof.
  intros Hcx H. unfold schedule_once in H.
  res_inv H as s1 Hs1. res_inv H as s2 Hs2. res_inv H as s3 Hs3.
  destruct (admit_loop_cx _ _ _ _ _ Hs1) as [Hc1 _].
  pose proof (admit_loop_new _ _ _ _ Hs1) as Hn1.
  destruct (admit_loop_cx _ _ _ _ _ Hs2) as [Hc2 Hn2].
  pose proof (maybe_age_cx _ _ _ Hs3) as Hc3.
  apply maybe_age_states in Hs3 as [Hst3 _].
  assert (Hlen : length (g_threads s1) = length (g_threads s)).
  { apply (f_equal length) in Hc1. by rewrite !length_fmap in Hc1. }
  assert (Hall : Forall (fun th => cx_made th = false /\ state th <> NEW) (g_threads s3)).
  { apply Forall_lookup. intros j th Hth. split.
    - apply (proj1 (none_built_fmap _) Hcx j).
      rewrite <- Hc1, <- Hc2, <- Hc3. by rewrite list_lookup_fmap, Hth.
    - intros Hnew.
      assert (Hj : (state <$> g_threads s3) !! j = Some NEW)
        by (by rewrite list_lookup_fmap, Hth, <- Hnew).
      rewrite Hst3 in Hj. apply Hn2 in Hj. pose proof Hj as Hj'.
      apply Hn1 in Hj. apply Hj. apply list_elem_of_In, in_seq.
      apply lookup_lt_Some in Hj'. rewrite length_fmap in Hj'. lia. }
  destruct (empty (g_sched s3)); [by injection H as <- <-|].
  res_inv H as r Hr. destruct (0 <=? r.1); [|by injection H as <- <-].
  res_inv H as s5 Hs5. exfalso.
  unfold switch_to_thread, ensure_context in Hs5.
  res_inv Hs5 as s0 Hs0. res_inv Hs0 as th Hth. simpl in Hth.
  pose proof Hth as [_ Hth']%vec_at_Ok.
  eapply Forall_lookup_1 in Hall as [Hf Hnn]; [|exact Hth'].
  rewrite (bool_decide_eq_false_2 _ Hnn) in Hs0. injection Hs0 as <-.
  res_inv Hs5 as th1 Hth1. simpl in Hth1. rewrite Hth in Hth1. injection Hth1 as <-.
  res_inv Hs5 as q Hq. res_inv Hs5 as s6 Hs6. by rewrite Hf in Hs5.
Qed.

(** X24: as long as no task has a built context, an iteration of the run
    loop starts nobody, under any policy: the tasks it admits are READY by
    the time they are popped, so [ensure_context] builds nothing and the
    switch is not a defined execution.  An iteration that does not dispatch
    leaves all contexts unbuilt and no task NEW, so the same holds for the
    iterations after it. *)
Theorem schedule_once_starts_nobody (now : Z * Z) (s : Runtime) :
  Forall (fun th => cx_made th = false) (g_threads s) ->
  (forall s' t, schedule_once now s <> Ok (s', Some t)) /\
  (forall s', schedule_once now s = Ok (s', None) ->
     Forall (fun th => cx_made th = false /\ state th <> NEW) (g_threads s') /\
     forall now' s'' t, schedule_once now' s' <> Ok (s'', Some t)).
Proof.
  intros Hcx. split.
  - intros s' t H. by destruct (schedule_once_unbuilt _ _ _ _ Hcx H).
  - intros s' H. destruct (schedule_once_unbuilt _ _ _ _ Hcx H) as [_ Hall].
    split; [done|]. intros now' s'' t H'.
    assert (Hcx' : Forall (fun th => cx_made th = false) (g_threads s'))
      by (eapply Forall_impl; [exact Hall | by intros th [? _]]).
    by destruct (schedule_once_unbuilt _ _ _ _ Hcx' H').
Qed.

Lemma schedule_once_starts_nobody_witness :
  schedule_once (1, 1) mlfq_two_tasks = Fault (NoContext 0) /\
  ~ (exists s' t, schedule_once (1, 1) mlfq_two_tasks = Ok (s', Some t)).
Proof.
  assert (Hcx : Forall (fun th => cx_made th = false) (g_threads mlfq_two_tasks))
    by (repeat constructor).
  split; [vm_compute; reflexivity|]. intros (s' & t & H).
  apply (proj1 (schedule_once_starts_nobody (1, 1) mlfq_two_tasks Hcx) s' t H).
Defined.

(** ** Promotion and demotion *)

Lemma demote_mlfq_Ok (t : Z) (s : Runtime) (th : Thread) (q : Z) :
  policy (g_sched s) = MLFQ ->
  vec_at (g_threads s) t = Ok th ->
  vec_at (quantum_by_level (g_sched s))
         (Z.min (mlfq_level th + 1) (levels (g_sched s) - 1)) = Ok q ->
  demote_mlfq t s =
    Ok (with_threads
          (<[Z.to_nat t :=
               set_quantum_budget q
                 (set_mlfq_level (Z.min (mlfq_level th + 1) (levels (g_sched s) - 1)) th)]>
             (g_threads s)) s).
Proof.
  intros Hp Hth Hq. unfold demote_mlfq. rewrite Hp, Hth. simpl. rewrite Hq. simpl.
  by rewrite (vec_set_Ok _ _ th).
Qed.

Lemma promote_mlfq_Ok (t : Z) (s : Runtime) (th : Thread) (q : Z) :
  policy (g_sched s) = MLFQ ->
  vec_at (g_threads s) t = Ok th ->
  vec_at (quantum_by_level (g_sched s)) (Z.max (mlfq_level th - 1) 0) = Ok q ->
  promote_mlfq t s =
    Ok (with_threads
          (<[Z.to_nat t :=
               set_quantum_budget q (set_mlfq_level (Z.max (mlfq_level th - 1) 0) th)]>
             (g_threads s)) s).
Proof.
  intros Hp Hth Hq. unfold promote_mlfq. rewrite Hp, Hth. simpl. rewrite Hq. simpl.
  by rewrite (vec_set_Ok _ _ th).
Qed.

(** X17: demotion and promotion keep a valid level valid, refresh the budget to
    the quantum of the new level, and undo each other away from the ends of
    the level range. *)
Theorem mlfq_level_moves (t : Z) (s : Runtime) (th : Thread) :
  policy (g_sched s) = MLFQ ->
  vec_at (g_threads s) t = Ok th ->
  0 <= mlfq_level th < levels (g_sched s) ->
  levels (g_sched s) <= Z.of_nat (length (quantum_by_level (g_sched s))) ->
  exists sd sp thd thp,
    demote_mlfq t s = Ok sd /\ promote_mlfq t s = Ok sp /\
    vec_at (g_threads sd) t = Ok thd /\ vec_at (g_threads sp) t = Ok thp /\
    mlfq_level thd = Z.min (mlfq_level th + 1) (levels (g_sched s) - 1) /\
    mlfq_level thp = Z.max (mlfq_level th - 1) 0 /\
    0 <= mlfq_level thd < levels (g_sched s) /\
    0 <= mlfq_level thp < levels (g_sched s) /\
    vec_at (quantum_by_level (g_sched s)) (mlfq_level thd) = Ok (quantum_budget thd) /\
    vec_at (quantum_by_level (g_sched s)) (mlfq_level thp) = Ok (quantum_budget thp) /\
    state thd = state th /\ state thp = state th /\
    (mlfq_level th < levels (g_sched s) - 1 ->
     exists s2 th2, promote_mlfq t sd = Ok s2 /\ vec_at (g_threads s2) t = Ok th2 /\
                    mlfq_level th2 = mlfq_level th) /\
    (0 < mlfq_level th ->
     exists s2 th2, demote_mlfq t sp = Ok s2 /\ vec_at (g_threads s2) t = Ok th2 /\
                    mlfq_level th2 = mlfq_level th).
Proof.
  intros Hp Hth Hl Hq. pose proof (vec_at_Ok_valid _ _ _ Hth) as Hv.
  set (ld := Z.min (mlfq_level th + 1) (levels (g_sched s) - 1)).
  set (lp := Z.max (mlfq_level th - 1) 0).
  destruct (vec_at_valid (quantum_by_level (g_sched s)) ld) as [qd Hqd]; [lia|].
  destruct (vec_at_valid (quantum_by_level (g_sched s)) lp) as [qp Hqp]; [lia|].
  destruct (vec_at_valid (quantum_by_level (g_sched s)) (mlfq_level th)) as [q0 Hq0]; [lia|].
  eexists _, _, _, _.
  split; [by apply (demote_mlfq_Ok t s th qd)|].
  split; [by apply (promote_mlfq_Ok t s th qp)|]. simpl.
  split; [by apply vec_at_insert_eq|]. split; [by apply vec_at_insert_eq|]. simpl.
  fold ld lp. repeat (split; [done || lia|]). split.
  - intros Hlt. eexists _, _. split.
    + eapply (promote_mlfq_Ok t _ _ q0); [done | by apply vec_at_insert_eq|].
      simpl. fold ld. replace (Z.max (ld - 1) 0) with (mlfq_level th) by lia. done.
    + simpl. split; [apply vec_at_insert_eq; by rewrite length_insert|]. simpl.
      fold ld. lia.
  - intros Hgt. eexists _, _. split.
    + eapply (demote_mlfq_Ok t _ _ q0); [done | by apply vec_at_insert_eq|].
      simpl. fold lp.
      replace (Z.min (lp + 1) (levels (g_sched s) - 1)) with (mlfq_level th) by lia. done.
    + simpl. split; [apply vec_at_insert_eq; by rewrite length_insert|]. simpl.
      fold lp. lia.
Qed.

Lemma mlfq_level_moves_witness :
  exists sd sp,
    demote_mlfq 0 (one_running MLFQ 4 1 [] [[]; []; []] []) = Ok sd /\
    promote_mlfq 0 (one_running MLFQ 4 1 [] [[]; []; []] []) = Ok sp /\
    vec_at (g_threads sd) 0 = Ok (task_A RUNNING 2 2) /\
    vec_at (g_threads sp) 0 = Ok (task_A RUNNING 8 0).
Proof.
  destruct (mlfq_level_moves 0 (one_running MLFQ 4 1 [] [[]; []; []] []) (task_A RUNNING 4 1))
    as (sd & sp & thd & thp & Hd & Hpr & _).
  - reflexivity.
  - reflexivity.
  - simpl. lia.
  - simpl. lia.
  - exists sd, sp. split; [exact Hd|]. split; [exact Hpr|].
    pose proof Hd as Hd'. vm_compute in Hd'. injection Hd' as <-.
    pose proof Hpr as Hp'. vm_compute in Hp'. injection Hp' as <-.
    split; reflexivity.
Defined.

(** ** Sleeping *)

(** X18: [thread_sleep] records the deadline, marks the caller SLEEPING, logs the
    event and, under MLFQ, promotes the caller one level; it puts the caller
    into no queue and touches no other task. *)
Theorem thread_sleep_effect (now ms : Z) (s : Runtime) (th : Thread) :
  vec_at (g_threads s) (g_current s) = Ok th ->
  (policy (g_sched s) = MLFQ ->
   Z.max (mlfq_level th - 1) 0 < Z.of_nat (length (quantum_by_level (g_sched s)))) ->
  exists s' th',
    thread_sleep now ms s = Ok s' /\
    g_threads s' = <[Z.to_nat (g_current s) := th']> (g_threads s) /\
    state th' = SLEEPING /\
    wake_time_ms th' = now + ms /\
    tid th' = tid th /\ base_priority th' = base_priority th /\
    (if bool_decide (policy (g_sched s) = MLFQ)
     then mlfq_level th' = Z.max (mlfq_level th - 1) 0 /\
          vec_at (quantum_by_level (g_sched s)) (mlfq_level th') = Ok (quantum_budget th')
     else mlfq_level th' = mlfq_level th /\ quantum_budget th' = quantum_budget th) /\
    g_sched s' = g_sched s /\
    g_log s' = g_log s ++ [mkLog "sleep" (g_current s) (pretty ms)] /\
    g_resources s' = g_resources s /\ g_current s' = g_current s.
Proof.
  intros Hth Hq. pose proof (vec_at_Ok_valid _ _ _ Hth) as Hv.
  unfold thread_sleep. rewrite Hth. cbn [mbind res_bind].
  rewrite (set_thread_Ok _ th) by done. cbn [mbind res_bind].
  destruct (decide (policy (g_sched s) = MLFQ)) as [Hp|Hp].
  - rewrite !(bool_decide_eq_true_2 (policy _ = MLFQ)) by done.
    destruct (vec_at_valid (quantum_by_level (g_sched s)) (Z.max (mlfq_level th - 1) 0))
      as [q Hqv]; [specialize (Hq Hp); lia|].
    rewrite (promote_mlfq_Ok _ _ (set_state SLEEPING (set_wake_time_ms (now + ms) th)) q);
      [|done|by apply vec_at_insert_eq|done].
    cbn [mbind res_bind]. unfold platform_yield_to_scheduler. simpl.
    rewrite list_insert_insert_eq. rewrite vec_at_insert_eq by done. simpl.
    eexists _, _. split; [reflexivity|]. simpl. repeat split; done.
  - rewrite !(bool_decide_eq_false_2 (policy _ = MLFQ)) by done.
    unfold platform_yield_to_scheduler. simpl.
    rewrite vec_at_insert_eq by done. simpl.
    eexists _, _. split; [reflexivity|]. simpl. repeat split; done.
Qed.

Lemma thread_sleep_effect_witness :
  exists s',
    thread_sleep 100 50 (one_running MLFQ 2 2 [] [[]; []; []] []) = Ok s' /\
    vec_at (g_threads s') 0 = Ok (mkThread 0 1 1 SLEEPING "A" true 150 4 1) /\
    mlfq (g_sched s') = [[]; []; []].
Proof.
  destruct (thread_sleep_effect 100 50 (one_running MLFQ 2 2 [] [[]; []; []] [])
              (task_A RUNNING 2 2)) as (s' & th' & Hs & _ & _ & _ & _ & _ & _ & Hsc & _).
  - reflexivity.
  - simpl. lia.
  - exists s'. split; [exact Hs|]. rewrite Hsc.
    pose proof Hs as Hs'. vm_compute in Hs'. injection Hs' as <-.
    split; reflexivity.
Defined.

(** X19: sleep and wake-up under RoundRobin: the sleeper is skipped by
    [wake_sleepers] before its deadline and requeued at the tail, READY, from
    the deadline on. *)
Theorem sleep_then_wake_round_robin (now ms now' : Z) (s : Runtime) (th : Thread) :
  policy (g_sched s) = RoundRobin ->
  vec_at (g_threads s) (g_current s) = Ok th ->
  exists s1 s2 th2,
    thread_sleep now ms s = Ok s1 /\
    wake_sleepers now' s1 = Ok s2 /\
    vec_at (g_threads s2) (g_current s) = Ok th2 /\
    (now' < now + ms ->
     state th2 = SLEEPING /\ wake_time_ms th2 = now + ms) /\
    (now + ms <= now' ->
     state th2 = READY /\ tid th ∈ rrq (g_sched s2) /\
     mkLog "wakeup" (tid th) "" ∈ g_log s2).
Proof.
  intros Hp Hth. pose proof (vec_at_Ok_valid _ _ _ Hth) as Hv.
  pose proof Hth as [_ Hlk]%vec_at_Ok.
  set (ths := set_state SLEEPING (set_wake_time_ms (now + ms) th)).
  set (s1 := log "sleep" (g_current s) (pretty ms)
               (with_threads (<[Z.to_nat (g_current s) := ths]> (g_threads s)) s)).
  assert (H1 : thread_sleep now ms s = Ok s1).
  { unfold thread_sleep. rewrite Hth. cbn [mbind res_bind].
    rewrite (set_thread_Ok _ th) by done. cbn [mbind res_bind].
    rewrite (bool_decide_eq_false_2 (policy _ = MLFQ)) by (simpl; congruence).
    unfold platform_yield_to_scheduler. simpl.
    rewrite vec_at_insert_eq by done. reflexivity. }
  set (due := fun th => bool_decide (state th = SLEEPING) && (wake_time_ms th <=? now')).
  assert (Hlk1 : g_threads s1 !! Z.to_nat (g_current s) = Some ths).
  { subst s1. simpl. apply list_lookup_insert_eq. lia. }
  eexists s1, _, (admitted due ths).
  split; [exact H1|].
  split; [apply (admit_loop_round_robin due "wakeup" s1); exact Hp|]. simpl.
  split.
  { apply vec_at_Ok. split; [lia|]. by rewrite list_lookup_fmap, list_lookup_insert_eq by lia. }
  unfold admitted, due. simpl. split.
  - intros Hlt. destruct (Z.leb_spec (now + ms) now'); [lia|]. done.
  - intros Hle. destruct (Z.leb_spec (now + ms) now'); [|lia]. simpl.
    assert (Hin : ths ∈ filter (fun th0 => due th0 = true)
                    (<[Z.to_nat (g_current s) := ths]> (g_threads s))).
    { apply list_elem_of_filter. split.
      - unfold due. simpl. by destruct (Z.leb_spec (now + ms) now'); [|lia].
      - apply list_elem_of_lookup. exists (Z.to_nat (g_current s)).
        apply list_lookup_insert_eq. lia. }
    split; [done|]. split.
    + apply elem_of_app. right. apply (list_elem_of_fmap_2 tid) in Hin. exact Hin.
    + apply elem_of_app. right.
      apply (list_elem_of_fmap_2 (fun th0 => mkLog "wakeup" (tid th0) "")) in Hin.
      exact Hin.
Qed.

Lemma sleep_then_wake_round_robin_witness :
  exists s1 s2 th2,
    thread_sleep 100 50 (one_running RoundRobin 8 0 [] [] []) = Ok s1 /\
    wake_sleepers 150 s1 = Ok s2 /\
    vec_at (g_threads s2) 0 = Ok th2 /\ state th2 = READY.
Proof.
  destruct (sleep_then_wake_round_robin 100 50 150 (one_running RoundRobin 8 0 [] [] [])
              (task_A RUNNING 8 0)) as (s1 & s2 & th2 & H1 & H2 & H3 & _ & H4).
  - reflexivity.
  - reflexivity.
  - exists s1, s2, th2. split; [exact H1|]. split; [exact H2|]. split; [exact H3|].
    apply H4. lia.
Defined.

(** ** Wait, then signal *)

Lemma thread_wait_facts (resource : string) (s : Runtime) (th : Thread) :
  vec_at (g_threads s) (g_current s) = Ok th ->
  (policy (g_sched s) = MLFQ ->
   Z.max (mlfq_level th - 1) 0 < Z.of_nat (length (quantum_by_level (g_sched s)))) ->
  exists s' th',
    thread_wait resource s = Ok s' /\
    g_threads s' = <[Z.to_nat (g_current s) := th']> (g_threads s) /\
    state th' = BLOCKED /\
    g_sched s' = g_sched s /\
    g_resources s' =
      <[resource := default [] (g_resources s !! resource) ++ [g_current s]]>
        (g_resources s) /\
    g_log s' = g_log s ++ [mkLog "wait" (g_current s) resource] /\
    g_current s' = g_current s.
Proof.
  intros Hth Hq. pose proof (vec_at_Ok_valid _ _ _ Hth) as Hv.
  unfold thread_wait. rewrite Hth. cbn [mbind res_bind].
  rewrite (set_thread_Ok _ th) by done. cbn [mbind res_bind].
  destruct (decide (policy (g_sched s) = MLFQ)) as [Hp|Hp].
  - rewrite (bool_decide_eq_true_2 (policy _ = MLFQ)) by done.
    destruct (vec_at_valid (quantum_by_level (g_sched s)) (Z.max (mlfq_level th - 1) 0))
      as [q Hqv]; [specialize (Hq Hp); lia|].
    rewrite (promote_mlfq_Ok _ _ (set_state BLOCKED th) q);
      [|done|by apply vec_at_insert_eq|done].
    cbn [mbind res_bind]. unfold platform_yield_to_scheduler. simpl.
    rewrite list_insert_insert_eq. rewrite vec_at_insert_eq by done. simpl.
    eexists _, _. split; [reflexivity|]. simpl. repeat split; done.
  - rewrite (bool_decide_eq_false_2 (policy _ = MLFQ)) by done.
    unfold platform_yield_to_scheduler. simpl.
    rewrite vec_at_insert_eq by done. simpl.
    eexists _, _. split; [reflexivity|]. simpl. repeat split; done.
Qed.

Lemma thread_signal_blocked_head (resource : string) (s : Runtime) (t : Z)
      (rest : list Z) (th : Thread) :
  g_resources s !! resource = Some (t :: rest) ->
  vec_at (g_threads s) t = Ok th -> state th = BLOCKED -> enqueue_ready s ->
  exists s' th',
    thread_signal resource s = Ok s' /\
    g_resources s' = <[resource := rest]> (g_resources s) /\
    vec_at (g_threads s') t = Ok th' /\ state th' = READY /\
    t ∈ ready_tids (g_sched s') /\
    g_log s' = g_log s ++ [mkLog "signal" t resource].
Proof.
  intros Hr Hth Hb Hready. pose proof (vec_at_Ok_valid _ _ _ Hth) as Hv.
  unfold thread_signal. rewrite Hr. simpl. rewrite Hth. simpl.
  rewrite bool_decide_eq_true_2 by done.
  rewrite (set_thread_Ok t th) by done. simpl.
  set (s2 := with_threads _ _).
  destruct (enqueue_Ok t s2 (set_state READY th))
    as (s3 & th' & He & Hin & Hths & Hst & Hlog & Hres & _).
  { destruct Hready as [Hq Hl]. split; [|done].
    eapply Forall_impl; [exact Hq|]. intros x Hx.
    unfold valid_tid in *. subst s2. simpl. by rewrite length_insert. }
  { subst s2. simpl. by apply vec_at_insert_eq. }
  rewrite He. simpl. exists (log "signal" t resource s3), th'. split; [reflexivity|].
  simpl. rewrite Hres, Hlog, Hths. subst s2. simpl.
  split; [reflexivity|]. split.
  - rewrite list_insert_insert_eq. by apply vec_at_insert_eq.
  - done.
Qed.

(** X20: a task that waits on a resource nobody waits on is the one the next
    signal wakes: it becomes READY again and enters the ready structure, and
    the queue of the resource is empty afterwards. *)
Theorem wait_then_signal (resource : string) (s : Runtime) (th : Thread) :
  vec_at (g_threads s) (g_current s) = Ok th ->
  enqueue_ready s ->
  (policy (g_sched s) = MLFQ ->
   Z.max (mlfq_level th - 1) 0 < Z.of_nat (length (quantum_by_level (g_sched s)))) ->
  default [] (g_resources s !! resource) = [] ->
  exists s1 s2 th2,
    thread_wait resource s = Ok s1 /\
    thread_signal resource s1 = Ok s2 /\
    vec_at (g_threads s2) (g_current s) = Ok th2 /\
    state th2 = READY /\
    g_current s ∈ ready_tids (g_sched s2) /\
    g_resources s2 !! resource = Some [] /\
    g_log s2 = g_log s ++ [mkLog "wait" (g_current s) resource;
                           mkLog "signal" (g_current s) resource].
Proof.
  intros Hth Hready Hq Hempty. pose proof (vec_at_Ok_valid _ _ _ Hth) as Hv.
  destruct (thread_wait_facts resource s th Hth Hq)
    as (s1 & th1 & Hw & Hths1 & Hst1 & Hsc1 & Hres1 & Hlog1 & Hc1).
  rewrite Hempty in Hres1. simpl in Hres1.
  destruct (thread_signal_blocked_head resource s1 (g_current s) [] th1)
    as (s2 & th2 & Hs & Hres2 & Hth2 & Hst2 & Hin & Hlog2).
  - rewrite Hres1. apply lookup_insert_eq.
  - rewrite Hths1. by apply vec_at_insert_eq.
  - done.
  - destruct Hready as [Hrq Hl]. rewrite <- Hsc1 in Hrq, Hl. split; [|done].
    eapply Forall_impl; [exact Hrq|]. intros x Hx.
    unfold valid_tid in *. by rewrite Hths1, length_insert.
  - exists s1, s2, th2. repeat (split; [done|]).
    split; [rewrite Hres2; apply lookup_insert_eq|].
    rewrite Hlog2, Hlog1, <- app_assoc. reflexivity.
Qed.

Lemma wait_then_signal_witness :
  exists s1 s2,
    thread_wait "go" (one_running MLFQ 2 2 [] [[]; []; []] []) = Ok s1 /\
    thread_signal "go" s1 = Ok s2 /\
    mlfq (g_sched s2) = [[]; [0]; []].
Proof.
  destruct (wait_then_signal "go" (one_running MLFQ 2 2 [] [[]; []; []] [])
              (task_A RUNNING 2 2)) as (s1 & s2 & th2 & Hw & Hs & _).
  - reflexivity.
  - split; [constructor | simpl; lia].
  - simpl. lia.
  - reflexivity.
  - exists s1, s2. split; [exact Hw|]. split; [exact Hs|].
    pose proof Hw as Hw'. vm_compute in Hw'. injection Hw' as <-.
    pose proof Hs as Hs'. vm_compute in Hs'. injection Hs' as <-.
    reflexivity.
Defined.

(** ** Starting a task *)

(** X21: when a task starts, it is the current task, RUNNING, [start] is logged,
    and its budget is at least 1 under RoundRobin and Priority and the
    quantum of its level under MLFQ. *)
Theorem context_trampoline_enter_effect (t : Z) (s : Runtime) (th : Thread) :
  vec_at (g_threads s) t = Ok th ->
  (policy (g_sched s) = MLFQ ->
   0 <= mlfq_level th < Z.of_nat (length (quantum_by_level (g_sched s)))) ->
  exists s' th',
    context_trampoline_enter t s = Ok s' /\
    g_current s' = t /\
    g_threads s' = <[Z.to_nat t := th']> (g_threads s) /\
    state th' = RUNNING /\ mlfq_level th' = mlfq_level th /\
    (if bool_decide (policy (g_sched s) = MLFQ)
     then vec_at (quantum_by_level (g_sched s)) (mlfq_level th) = Ok (quantum_budget th')
     else quantum_budget th' = Z.max 1 (quantum_budget th) /\ 1 <= quantum_budget th') /\
    (quanta_positive (g_sched s) -> 1 <= quantum_budget th') /\
    g_sched s' = g_sched s /\
    g_log s' = g_log s ++ [mkLog "start" t (name th)].
Proof.
  intros Hth Hq. pose proof (vec_at_Ok_valid _ _ _ Hth) as Hv.
  unfold context_trampoline_enter. simpl. rewrite Hth. cbn [mbind res_bind].
  rewrite (set_thread_Ok t th) by done. cbn [mbind res_bind]. simpl.
  destruct (decide (policy (g_sched s) = MLFQ)) as [Hp|Hp].
  - rewrite !(bool_decide_eq_true_2 (policy _ = MLFQ)) by done.
    destruct (vec_at_valid (quantum_by_level (g_sched s)) (mlfq_level th))
      as [q Hqv]; [by apply Hq|].
    rewrite Hqv. cbn [mbind res_bind]. rewrite vec_at_insert_eq by done.
    cbn [mbind res_bind].
    rewrite (set_thread_Ok t (set_state RUNNING th)) by (by apply vec_at_insert_eq).
    simpl. rewrite list_insert_insert_eq.
    eexists _, _. split; [reflexivity|]. simpl. repeat split; try done.
    intros Hpos. apply vec_at_Ok in Hqv as [_ Hqv].
    by eapply Forall_lookup_1 in Hpos.
  - rewrite !(bool_decide_eq_false_2 (policy _ = MLFQ)) by done.
    cbn [mbind res_bind]. rewrite vec_at_insert_eq by done. cbn [mbind res_bind].
    rewrite (set_thread_Ok t (set_state RUNNING th)) by (by apply vec_at_insert_eq).
    simpl. rewrite list_insert_insert_eq.
    eexists _, _. split; [reflexivity|]. simpl.
    repeat split; try done; intros; simpl; lia.
Qed.

Lemma context_trampoline_enter_effect_witness :
  exists s' th',
    context_trampoline_enter 0
      (mkRuntime (mkSched RoundRobin [] [] 3 [8; 4; 2] true 500 0)
                 [task_A READY (-3) 0] (-1) 1 ∅ ∅ []) = Ok s' /\
    g_threads s' = [th'] /\ quantum_budget th' = 1.
Proof.
  destruct (context_trampoline_enter_effect 0
              (mkRuntime (mkSched RoundRobin [] [] 3 [8; 4; 2] true 500 0)
                         [task_A READY (-3) 0] (-1) 1 ∅ ∅ [])
              (task_A READY (-3) 0))
    as (s' & th' & He & _ & Hths & _ & _ & Hb & _).
  - reflexivity.
  - simpl. intros Hp. discriminate Hp.
  - exists s', th'. split; [exact He|]. split; [exact Hths|].
    simpl in Hb. destruct Hb as [Hb _]. exact Hb.
Defined.

(** ** Enqueueing under MLFQ *)

(** X22: [enqueue] under MLFQ clamps the level of the task into the level range,
    gives it a fresh quantum of that level and appends it to the queue of
    that level only. *)
Theorem enqueue_mlfq_clamps (t : Z) (s : Runtime) (th : Thread) :
  policy (g_sched s) = MLFQ ->
  vec_at (g_threads s) t = Ok th ->
  1 <= levels (g_sched s) ->
  mlfq_sized (g_sched s) ->
  exists s' th' old,
    enqueue t s = Ok s' /\
    g_threads s' = <[Z.to_nat t := th']> (g_threads s) /\
    0 <= mlfq_level th' < levels (g_sched s) /\
    (0 <= mlfq_level th < levels (g_sched s) -> mlfq_level th' = mlfq_level th) /\
    (mlfq_level th < 0 -> mlfq_level th' = 0) /\
    (levels (g_sched s) <= mlfq_level th -> mlfq_level th' = levels (g_sched s) - 1) /\
    vec_at (quantum_by_level (g_sched s)) (mlfq_level th') = Ok (quantum_budget th') /\
    state th' = state th /\
    mlfq (g_sched s) !! Z.to_nat (mlfq_level th') = Some old /\
    mlfq (g_sched s') = <[Z.to_nat (mlfq_level th') := old ++ [t]]> (mlfq (g_sched s)) /\
    quantum_by_level (g_sched s') = quantum_by_level (g_sched s) /\
    rrq (g_sched s') = rrq (g_sched s) /\ g_log s' = g_log s.
Proof.
  intros Hp Hth Hl Hs. pose proof (vec_at_Ok_valid _ _ _ Hth) as Hv.
  pose proof Hs as [Hm Hq].
  set (lvl := if mlfq_level th <? 0 then 0
              else if levels (g_sched s) - 1 <? mlfq_level th
                   then levels (g_sched s) - 1 else mlfq_level th).
  assert (Hlvl : 0 <= lvl < levels (g_sched s)).
  { subst lvl. destruct (Z.ltb_spec (mlfq_level th) 0); [lia|].
    destruct (Z.ltb_spec (levels (g_sched s) - 1) (mlfq_level th)); lia. }
  destruct (vec_at_valid (quantum_by_level (g_sched s)) lvl) as [q Hqv]; [lia|].
  destruct (vec_at_valid (mlfq (g_sched s)) lvl) as [old Hold]; [lia|].
  exists (with_threads (<[Z.to_nat t := set_quantum_budget q (set_mlfq_level lvl th)]>
                          (g_threads s))
            (with_sched (sched_with_mlfq (<[Z.to_nat lvl := old ++ [t]]> (mlfq (g_sched s)))
                                         (g_sched s)) s)),
         (set_quantum_budget q (set_mlfq_level lvl th)), old.
  split.
  - unfold enqueue. rewrite Hp. unfold enqueue_mlfq.
    rewrite (init_mlfq_if_needed_sized _ Hs). cbn [mbind res_bind].
    rewrite Hth. cbn [mbind res_bind]. unfold clamp.
    destruct (Z.ltb_spec (levels (g_sched s) - 1) 0); [lia|]. cbn [mbind res_bind].
    fold lvl. rewrite Hqv. cbn [mbind res_bind].
    rewrite (vec_set_Ok _ _ th) by done. cbn [mbind res_bind]. rewrite Hold.
    cbn [mbind res_bind]. rewrite (vec_set_Ok _ _ old) by done. reflexivity.
  - simpl. split; [done|]. split; [done|].
    split; [intros ?; subst lvl;
            destruct (Z.ltb_spec (mlfq_level th) 0); [lia|];
            destruct (Z.ltb_spec (levels (g_sched s) - 1) (mlfq_level th)); lia|].
    split; [intros ?; subst lvl; destruct (Z.ltb_spec (mlfq_level th) 0); lia|].
    split; [intros ?; subst lvl;
            destruct (Z.ltb_spec (mlfq_level th) 0); [lia|];
            destruct (Z.ltb_spec (levels (g_sched s) - 1) (mlfq_level th)); lia|].
    split; [done|]. split; [done|].
    split; [by apply vec_at_Ok in Hold as [_ ?]|]. done.
Qed.

Lemma enqueue_mlfq_clamps_witness :
  exists s',
    enqueue 0 (mkRuntime (mkSched MLFQ [] [[]; [7]; []] 3 [8; 4; 2] true 500 0)
                         [task_A READY 0 5] (-1) 1 ∅ ∅ []) = Ok s' /\
    mlfq (g_sched s') = [[]; [7]; [0]] /\
    g_threads s' = [task_A READY 2 2].
Proof.
  destruct (enqueue_mlfq_clamps 0
              (mkRuntime (mkSched MLFQ [] [[]; [7]; []] 3 [8; 4; 2] true 500 0)
                         [task_A READY 0 5] (-1) 1 ∅ ∅ [])
              (task_A READY 0 5)) as (s' & th' & old & He & _).
  - reflexivity.
  - reflexivity.
  - simpl. lia.
  - split; reflexivity.
  - exists s'. split; [exact He|].
    pose proof He as He'. vm_compute in He'. injection He' as <-. split; reflexivity.
Defined.

(** ** Yield *)

(** X23: [thread_yield] by a RUNNING task makes it READY, requeues it (at the tail
    under RoundRobin) and logs [yield]; by a task in any other state it
    changes nothing. *)
Theorem thread_yield_effect (s : Runtime) (th : Thread) :
  vec_at (g_threads s) (g_current s) = Ok th ->
  enqueue_ready s ->
  exists s',
    thread_yield s = Ok s' /\
    if bool_decide (state th = RUNNING) then
      (exists th', vec_at (g_threads s') (g_current s) = Ok th' /\ state th' = READY) /\
      g_current s ∈ ready_tids (g_sched s') /\
      (policy (g_sched s) = RoundRobin ->
       rrq (g_sched s') = rrq (g_sched s) ++ [g_current s]) /\
      g_log s' = g_log s ++ [mkLog "yield" (g_current s) ""]
    else s' = s.
Proof.
  intros Hth Hready. pose proof (vec_at_Ok_valid _ _ _ Hth) as Hv.
  unfold thread_yield. destruct (Z.leb_spec 0 (g_current s)); [|lia].
  rewrite Hth. cbn [mbind res_bind]. case_bool_decide as Hrun.
  - rewrite (set_thread_Ok _ th) by done. cbn [mbind res_bind].
    set (s1 := with_threads _ s).
    destruct (enqueue_Ok (g_current s) s1 (set_state READY th))
      as (s2 & th' & He & Hin & Hths & Hst & Hlog & _ & _ & Hc).
    { by apply enqueue_ready_insert. }
    { subst s1. simpl. by apply vec_at_insert_eq. }
    rewrite He. cbn [mbind res_bind]. unfold platform_yield_to_scheduler. simpl.
    rewrite Hc, Hths. subst s1. simpl. rewrite list_insert_insert_eq.
    rewrite vec_at_insert_eq by done. simpl.
    eexists. split; [reflexivity|]. simpl. rewrite Hths, Hlog. simpl.
    rewrite list_insert_insert_eq.
    split; [exists th'; split; [by apply vec_at_insert_eq | done]|].
    split; [done|]. split; [|done].
    intros Hp. unfold enqueue in He. simpl in He. rewrite Hp in He.
    injection He as <-. reflexivity.
  - cbn [mbind res_bind]. unfold platform_yield_to_scheduler. rewrite Hth. simpl.
    by eexists.
Qed.

Lemma thread_yield_effect_witness :
  exists s',
    thread_yield (one_running RoundRobin 8 0 [1] [] [mkThread 1 1 1 READY "B" true 0 8 0]) = Ok s' /\
    rrq (g_sched s') = [1; 0].
Proof.
  destruct (thread_yield_effect (one_running RoundRobin 8 0 [1] [] [mkThread 1 1 1 READY "B" true 0 8 0])
              (task_A RUNNING 8 0)) as (s' & Hy & Hb).
  - reflexivity.
  - split; [|simpl; lia]. repeat constructor; unfold valid_tid; simpl; lia.
  - exists s'. split; [exact Hy|]. simpl in Hb.
    destruct Hb as (_ & _ & Hq & _). apply Hq. reflexivity.
Defined.
